(** * logshare: the vendored Cloudflare v4 API client and the log retriever

A shallow embedding of [vendor/github.com/cloudflare/cloudflare-go/cloudflare.go]
(construction of the client, authentication headers, the HTTP round trip,
the mapping of status codes to errors, zone lookup by name) with the
theorems that relate it to the specification of the repository. *)

From Stdlib Require Import ZArith String Ascii List Bool Lia DecimalString.
From stdpp Require Import gmap strings list fin_maps.

Local Open Scope Z_scope.

(** ** Errors: [github.com/pkg/errors] and [fmt] *)

Module errors.

(** An argument of a format string. *)
Inductive fmt_arg : Type :=
| IntArg (n : Z)
| StrArg (s : string).

(** Error values.  [New], [Errorf] and [Wrap] are the three constructors of
    [github.com/pkg/errors] the client uses; [External] stands for an error
    value made by a library underneath ([net/http], [encoding/json], [io]). *)
Inductive error : Type :=
| New (msg : string)
| Errorf (format : string) (args : list fmt_arg)
| Wrap (cause : error) (msg : string)
| External (msg : string).

(** Decimal rendering of an integer, the verb [%d]. *)
Definition itoa (n : Z) : string := NilZero.string_of_int (Z.to_int n).

Section Rendering.
(** [strconv.Quote], the verb [%q]: a Go string literal for the argument. *)
Variable quote : string -> string.

(** [fmt.Sprintf] for the verbs the client uses, [%d] on an integer and
    [%q] on a string; any other [%] sequence is copied as it stands. *)
Fixpoint Sprintf (format : string) (args : list fmt_arg) : string :=
  match format with
  | EmptyString => EmptyString
  | String "%" (String "d" rest as tl) =>
      match args with
      | IntArg n :: args' => itoa n +:+ Sprintf rest args'
      | _ => String "%" (Sprintf tl args)
      end
  | String "%" (String "q" rest as tl) =>
      match args with
      | StrArg s :: args' => quote s +:+ Sprintf rest args'
      | _ => String "%" (Sprintf tl args)
      end
  | String c rest => String c (Sprintf rest args)
  end.

(** The method [Error()]: the message of an error value. *)
Fixpoint Error (e : error) : string :=
  match e with
  | New msg => msg
  | Errorf format args => Sprintf format args
  | Wrap cause msg => msg +:+ ": " +:+ Error cause
  | External msg => msg
  end.
End Rendering.

End errors.

(** ** The part of [net/http] the client touches *)

Module http.

Definition StatusOK : Z := 200.
Definition StatusUnauthorized : Z := 401.
Definition StatusForbidden : Z := 403.
Definition StatusBadGateway : Z := 502.
Definition StatusServiceUnavailable : Z := 503.
Definition StatusGatewayTimeout : Z := 504.

(** [http.Header] is a Go map from header name to the list of its values.
    Maps are reference values: a [href] is the address of a map in the
    heap, [None] is the nil map.  The lists of values are kept as values:
    the client replaces the list of a key and never writes to an element. *)
Abbreviation Header := (gmap string (list string)).
Definition href : Type := option nat.

(** A [*http.Request] as the client builds it. *)
Record Request : Type := mkRequest {
  Method : string;
  URL : string;
  ReqHeader : href;
  ReqBody : option string
}.

(** What leaves the process when a request is sent: the request with the
    contents its header map has at that moment. *)
Record Outbound : Type := mkOutbound {
  out_method : string;
  out_url : string;
  out_header : Header;
  out_body : option string
}.

(** A response body: the bytes it delivers, or the error reading it meets. *)
Record Body : Type := mkBody {
  content : string;
  read_error : option errors.error
}.

Record Response : Type := mkResponse {
  StatusCode : Z;
  RespBody : Body
}.

(** An [*http.Client], through its only method used here, [Do]. *)
Definition Client : Type := Outbound -> Response + errors.error.

(** What the process does to the outside world. *)
Inductive event : Type :=
| EvDo (r : Outbound)
| EvClose.

End http.

(** ** The client: [package cloudflare] *)

Module cloudflare.
Import errors http.

Definition apiURL : string := "https://api.cloudflare.com/client/v4".

(** The [const] block of authentication methods: [1 << iota] on each line. *)
Definition AuthApiToken : Z := Z.shiftl 1 0.
Definition AuthKeyEmail : Z := Z.shiftl 1 1.
Definition AuthUserService : Z := Z.shiftl 1 2.

(** [API] holds the configuration of the client.  [headers] is a reference
    to a map, [httpClient] a pointer that may be nil. *)
Record API : Type := mkAPI {
  APIToken : string;
  APIKey : string;
  APIEmail : string;
  APIUserServiceKey : string;
  BaseURL : string;
  organizationID : string;
  headers : href;
  httpClient : option Client;
  authType : Z
}.

Definition with_httpClient (c : option Client) (a : API) : API :=
  mkAPI (APIToken a) (APIKey a) (APIEmail a) (APIUserServiceKey a) (BaseURL a)
        (organizationID a) (headers a) c (authType a).

Definition with_authType (t : Z) (a : API) : API :=
  mkAPI (APIToken a) (APIKey a) (APIEmail a) (APIUserServiceKey a) (BaseURL a)
        (organizationID a) (headers a) (httpClient a) t.

(** The world outside the receiver: the heap of header maps and the trace
    of what went out on the network. *)
Record World : Type := mkWorld {
  heap : list Header;
  trace : list event
}.

(** The state a method of [*API] runs in: the receiver, read and written
    through its pointer, and the world. *)
Record State : Type := mkState {
  self : API;
  world : World
}.

(** How a call ends: with a value, with a non-nil [error], or in a panic. *)
Inductive outcome (A : Type) : Type :=
| Ok (a : A)
| Err (e : error)
| Panic (msg : string).
Arguments Ok {A} a.
Arguments Err {A} e.
Arguments Panic {A} msg.

Definition M (A : Type) : Type := State -> outcome A * State.

Definition ret {A} (a : A) : M A := fun st => (Ok a, st).
Definition fail {A} (e : error) : M A := fun st => (Err e, st).
Definition panic {A} (msg : string) : M A := fun st => (Panic msg, st).

Definition bind {A B} (m : M A) (k : A -> M B) : M B :=
  fun st =>
    match m st with
    | (Ok a, st') => k a st'
    | (Err e, st') => (Err e, st')
    | (Panic msg, st') => (Panic msg, st')
    end.

Declare Scope go_scope.
Delimit Scope go_scope with go.
Notation "x <- m ;; k" := (bind m (fun x => k))
  (at level 100, m at next level, right associativity) : go_scope.
Notation "m ;;; k" := (bind m (fun _ => k))
  (at level 100, right associativity) : go_scope.
Local Open Scope go_scope.

(** [if err != nil { return nil, errors.Wrap(err, msg) }] after a call. *)
Definition wrapping {A} (msg : string) (m : M A) : M A :=
  fun st =>
    match m st with
    | (Err e, st') => (Err (Wrap e msg), st')
    | r => r
    end.

(** [defer d] in front of the rest of a function body: [d] runs when the
    body is left, whichever way it is left. *)
Definition defer {A} (d : M unit) (body : M A) : M A :=
  fun st =>
    let (r, st') := body st in
    let (_, st'') := d st' in
    (r, st'').

Definition when (b : bool) (m : M unit) : M unit := if b then m else ret tt.

(** Reading a field through the receiver. *)
Definition field {A} (f : API -> A) : M A := fun st => (Ok (f (self st)), st).

(** *** Header maps in the heap *)

(** The contents of the map a reference points to; the nil map reads as
    the empty map. *)
Definition deref (h : href) (w : World) : Header :=
  match h with
  | Some l => default ∅ (heap w !! l)
  | None => ∅
  end.

(** [make(http.Header)], and more generally the allocation of a map: the
    new map gets the next free address. *)
Definition alloc_in (m : Header) (w : World) : href * World :=
  (Some (length (heap w)), mkWorld (heap w ++ [m]) (trace w)).

Definition alloc (m : Header) : M href :=
  fun st =>
    let (h, w) := alloc_in m (world st) in
    (Ok h, mkState (self st) w).

(** [h.Set(key, value)]: the entry of [key] becomes the one-element list.
    The keys the client sets are in canonical form already.  Writing to the
    nil map panics. *)
Definition Header_Set (h : href) (key value : string) : M unit :=
  fun st =>
    match h with
    | Some l =>
        let w := world st in
        (Ok tt, mkState (self st)
                        (mkWorld (alter (fun m => <[key := [value]]> m) l (heap w))
                                 (trace w)))
    | None => (Panic "assignment to entry in nil map", st)
    end.

(** [h.Get(key)]: the first value of [key], or the empty string. *)
Definition Header_Get (h : href) (key : string) : M string :=
  fun st =>
    (Ok match deref h (world st) !! key with
        | Some (v :: _) => v
        | _ => ""
        end, st).

(** [cloneHeader] returns a shallow copy of the header: a new map that
    receives every entry of the old one. *)
Definition cloneHeader (header : href) : M href :=
  fun st =>
    alloc (map_fold (fun k vs h => <[k := vs]> h) ∅ (deref header (world st))) st.

Definition emit (e : event) : M unit :=
  fun st =>
    let w := world st in
    (Ok tt, mkState (self st) (mkWorld (heap w) (trace w ++ [e]))).

(** [c.Do(req)]: the request goes out with the headers its map holds now. *)
Definition Client_Do (c : option Client) (req : Request) : M Response :=
  match c with
  | None => panic "invalid memory address or nil pointer dereference"
  | Some do =>
      fun st =>
        let out := mkOutbound (Method req) (URL req)
                              (deref (ReqHeader req) (world st)) (ReqBody req) in
        match emit (EvDo out) st with
        | (_, st') =>
            match do out with
            | inl resp => (Ok resp, st')
            | inr e => (Err e, st')
            end
        end
  end.

(** [resp.Body.Close()]. *)
Definition Body_Close (b : Body) : M unit := emit EvClose.

(** [ioutil.ReadAll(resp.Body)]. *)
Definition ReadAll (b : Body) : M string :=
  match read_error b with
  | Some e => fail e
  | None => ret (content b)
  end.

(** *** The client proper *)

(** One element of a zone listing.  [ZoneIDByName] reads the two fields
    below; the declaration of the type is in another file of the package. *)
Record Zone : Type := mkZone {
  ID : string;
  Name : string
}.

(** What the file takes from the rest of the package and from the libraries
    underneath is a variable of the section. *)
Section Client.

(** A non-nil [params interface{}] and [json.Marshal] on it. *)
Variable Params : Type.
Variable json_Marshal : Params -> string + error.

(** The checks of [http.NewRequest] on the method and the URL: the error
    it returns, if any. *)
Variable NewRequest_check : string -> string -> option error.

(** [http.DefaultClient]. *)
Variable DefaultClient : Client.

(** The message constant [errEmptyCredentials]. *)
Variable errEmptyCredentials : string.

(** The functional options of [New] and the method that applies them to
    the client under construction. *)
Variable Option : Type.
Variable parseOptions : list Option -> M unit.

(** The method [ListZones], which fetches the zone listing. *)
Variable ListZones : string -> M (list Zone).

(** [http.NewRequest(method, url, body)]: an empty method means GET, the
    request gets a header map of its own. *)
Definition http_NewRequest (method url : string) (body : option string)
  : M Request :=
  match NewRequest_check method url with
  | Some e => fail e
  | None =>
      h <- alloc ∅ ;;
      ret (mkRequest (if String.eqb method "" then "GET" else method) url h body)
  end.

(** [New] creates a new Cloudflare v4 API client. *)
Definition New (token key email : string) (opts : list Option) (w : World)
  : outcome API * World :=
  if String.eqb token "" && (String.eqb key "" || String.eqb email "") then
    (Err (errors.New errEmptyCredentials), w)
  else
    let (h, w0) := alloc_in ∅ w in
    let api := mkAPI token key email "" apiURL "" h None AuthKeyEmail in
    match parseOptions opts (mkState api w0) with
    | (Err err, st) => (Err (Wrap err "options parsing failed"), world st)
    | (Panic msg, st) => (Panic msg, world st)
    | (Ok _, st) =>
        (* Fall back to http.DefaultClient if the package user does not
           provide their own. *)
        let api' :=
          match httpClient (self st) with
          | None => with_httpClient (Some DefaultClient) (self st)
          | Some _ => self st
          end in
        (Ok api', world st)
    end.

(** [SetAuthType] sets the authentication method. *)
Definition SetAuthType (t : Z) : M unit :=
  fun st => (Ok tt, mkState (with_authType t (self st)) (world st)).

(** [ZoneIDByName] retrieves a zone's ID from the name. *)
Fixpoint first_zone_named (zoneName : string) (res : list Zone)
  : outcome string :=
  match res with
  | [] => Err (errors.New "Zone could not be found")
  | zone :: rest =>
      if String.eqb (Name zone) zoneName then Ok (ID zone)
      else first_zone_named zoneName rest
  end.

Definition ZoneIDByName (zoneName : string) : M string :=
  res <- wrapping "ListZones command failed" (ListZones zoneName) ;;
  fun st => (first_zone_named zoneName res, st).

(** [request] makes a HTTP request to the given API endpoint, returning
    the raw response, or an error if one occurred. *)
Definition request (method uri : string) (reqBody : option string)
           (authType : Z) : M Response :=
  base <- field BaseURL ;;
  req0 <- wrapping "HTTP request creation failed"
            (http_NewRequest method (base +:+ uri) reqBody) ;;
  (* Apply any user-defined headers first. *)
  stored <- field headers ;;
  h <- cloneHeader stored ;;
  let req := mkRequest (Method req0) (URL req0) h (ReqBody req0) in
  (when (negb (Z.land authType AuthApiToken =? 0)%Z)
     (token <- field APIToken ;;
      Header_Set h "Authorization" ("Bearer " +:+ token))) ;;;
  (when (negb (Z.land authType AuthKeyEmail =? 0)%Z)
     (key <- field APIKey ;;
      Header_Set h "X-Auth-Key" key ;;;
      email <- field APIEmail ;;
      Header_Set h "X-Auth-Email" email)) ;;;
  (when (negb (Z.land authType AuthUserService =? 0)%Z)
     (key <- field APIUserServiceKey ;;
      Header_Set h "X-Auth-User-Service-Key" key)) ;;;
  ct <- Header_Get h "Content-Type" ;;
  (when (String.eqb ct "")
     (Header_Set h "Content-Type" "application/json")) ;;;
  c <- field httpClient ;;
  resp <- wrapping "HTTP request failed" (Client_Do c req) ;;
  ret resp.

(** The [switch] on [resp.StatusCode] at the end of
    [makeRequestWithAuthType]. *)
Definition status_switch (code : Z) (body : string) : outcome string :=
  if Z.eqb code StatusOK then Ok body
  else if Z.eqb code StatusUnauthorized then
    Err (Errorf "HTTP status %d: invalid credentials" [IntArg code])
  else if Z.eqb code StatusForbidden then
    Err (Errorf "HTTP status %d: insufficient permissions" [IntArg code])
  else if Z.eqb code StatusServiceUnavailable || Z.eqb code StatusBadGateway
          || Z.eqb code StatusGatewayTimeout
          || Z.eqb code 522 || Z.eqb code 523 || Z.eqb code 524 then
    Err (Errorf "HTTP status %d: service failure" [IntArg code])
  else
    Err (Errorf "HTTP status %d: content %q" [IntArg code; StrArg body]).

(** The first step of [makeRequestWithAuthType]: the request body that
    [params] gives, [nil] when there are none. *)
Definition marshalled (params : option Params) : outcome (option string) :=
  match params with
  | Some p =>
      match json_Marshal p with
      | inr err => Err (Wrap err "error marshalling params to JSON")
      | inl json => Ok (Some json)
      end
  | None => Ok None
  end.

(** [makeRequestWithAuthType] makes a HTTP request and returns the body,
    closing it before returning; [params] is serialized to JSON. *)
Definition makeRequestWithAuthType (method uri : string)
           (params : option Params) (authType : Z) : M string :=
  reqBody <- match params with
             | Some p =>
                 match json_Marshal p with
                 | inr err => fail (Wrap err "error marshalling params to JSON")
                 | inl json => ret (Some json)
                 end
             | None => ret None
             end ;;
  resp <- request method uri reqBody authType ;;
  defer (Body_Close (RespBody resp))
    (body <- wrapping "could not read response body" (ReadAll (RespBody resp)) ;;
     fun st => (status_switch (StatusCode resp) body, st)).

(** [makeRequest] uses the authentication method stored in the client. *)
Definition makeRequest (method uri : string) (params : option Params)
  : M string :=
  t <- field authType ;;
  makeRequestWithAuthType method uri params t.

(** [userBaseURL]: the base URL for endpoints that exist for both accounts
    and organizations. *)
Definition userBaseURL (accountBase : string) : M string :=
  org <- field organizationID ;;
  ret (if negb (String.eqb org "") then "/organizations/" +:+ org
       else accountBase).

End Client.

(** *** What a request carries, as functions on header maps *)

(** The first value of a key in a header map, or the empty string. *)
Definition Header_first (m : Header) (key : string) : string :=
  match m !! key with
  | Some (v :: _) => v
  | _ => ""
  end.

(** The stored headers with the credentials of the selected authentication
    methods set on top. *)
Definition with_auth (a : API) (authType : Z) (stored : Header) : Header :=
  let h1 := if negb (Z.land authType AuthApiToken =? 0)%Z
            then <["Authorization" := ["Bearer " +:+ APIToken a]]> stored
            else stored in
  let h2 := if negb (Z.land authType AuthKeyEmail =? 0)%Z
            then <["X-Auth-Email" := [APIEmail a]]>
                   (<["X-Auth-Key" := [APIKey a]]> h1)
            else h1 in
  if negb (Z.land authType AuthUserService =? 0)%Z
  then <["X-Auth-User-Service-Key" := [APIUserServiceKey a]]> h2
  else h2.

(** The header map of an outgoing request. *)
Definition outgoing_header (a : API) (authType : Z) (stored : Header)
  : Header :=
  let h := with_auth a authType stored in
  if String.eqb (Header_first h "Content-Type") ""
  then <["Content-Type" := ["application/json"]]> h
  else h.

(** A reference is allocated when it is nil or points into the heap. *)
Definition allocated (h : href) (w : World) : Prop :=
  match h with
  | Some l => (l < length (heap w))%nat
  | None => True
  end.

(** The requests among the events of a trace. *)
Fixpoint sent (tr : list event) : list Outbound :=
  match tr with
  | [] => []
  | EvDo out :: rest => out :: sent rest
  | EvClose :: rest => sent rest
  end.

(** The requests a run from [st] to [st'] has sent. *)
Definition sent_between (st st' : State) : list Outbound :=
  sent (drop (length (trace (world st))) (trace (world st'))).

(** What a run may change: the receiver stays as it was, the heap only
    grows, the trace only grows. *)
Definition grows (st st' : State) : Prop :=
  self st' = self st
  /\ (exists extra, heap (world st') = heap (world st) ++ extra)
  /\ (exists more, trace (world st') = trace (world st) ++ more).

(** The three credential headers of a request: [Authorization],
    [X-Auth-Key] and [X-Auth-Email]. *)
Definition credentials_of (out : Outbound)
  : option (list string) * option (list string) * option (list string) :=
  (out_header out !! "Authorization",
   out_header out !! "X-Auth-Key",
   out_header out !! "X-Auth-Email").

(** The statuses of the 2xx success range. *)
Definition is_2xx (code : Z) : Prop := 200 <= code < 300.

(** Whether a call returned a non-nil [error]. *)
Definition is_Err {A} (r : outcome A) : Prop :=
  match r with Err _ => True | _ => False end.

Definition is_Ok {A} (r : outcome A) : Prop :=
  match r with Ok _ => True | _ => False end.

(** *** A concrete setting to run the client in *)

(** Options as functions on the client under construction, applied in
    order until one of them returns an error. *)
Fixpoint apply_options (opts : list (M unit)) : M unit :=
  match opts with
  | [] => ret tt
  | option :: rest => option ;;; apply_options rest
  end.

(** A server that answers every request with the same status and body. *)
Definition fixed_server (code : Z) (body : string) : Client :=
  fun _ => inl (mkResponse code (mkBody body None)).

(** A transport that cannot reach the server. *)
Definition no_route : Client :=
  fun _ => inr (External "dial tcp: connection refused").

Definition accept_all : string -> string -> option error := fun _ _ => None.
Definition marshal_text : string -> string + error := inl.
Definition empty_world : World := mkWorld [] [].

(** [New] in that setting. *)
Definition New_in (server : Client) (token key email : string)
           (opts : list (M unit)) : outcome API * World :=
  New server "empty credentials" (M unit) apply_options token key email opts
      empty_world.

(** A call of [makeRequest] on the client [New] returned, if it did. *)
Definition call_after_New (server : Client) (token key email : string)
           (opts : list (M unit)) (t : option Z) (method uri : string)
  : option (outcome string * State) :=
  match New_in server token key email opts with
  | (Ok api, w) =>
      Some ((match t with Some t => SetAuthType t | None => ret tt end ;;;
             makeRequest string marshal_text accept_all method uri None)
              (mkState api w))
  | _ => None
  end.

(** The requests that call has put on the network. *)
Definition requests_after_New (server : Client) (token key email : string)
           (opts : list (M unit)) (t : option Z) (method uri : string)
  : list Outbound :=
  match call_after_New server token key email opts t method uri with
  | Some (_, st) => sent (trace (world st))
  | None => []
  end.

(** A zone listing with two zones of the same name and one whose name
    differs from theirs in the case of a letter. *)
Definition sample_zones : list Zone :=
  [mkZone "id-1" "Example.com"; mkZone "id-2" "example.com";
   mkZone "id-3" "example.com"].

(** A client as [New] leaves it, holding all three credentials, talking to
    [server], with authentication method [t]. *)
Definition sample_client (server : Client) (t : Z) : State :=
  mkState (mkAPI "tok" "key" "mail@example.com" "" apiURL "" (Some 0%nat)
                 (Some server) t)
          (mkWorld [∅] []).

(** A fetch of the zone listing by that client. *)
Definition sample_fetch (server : Client) (t : Z) : outcome string * State :=
  makeRequestWithAuthType string marshal_text accept_all "GET" "/zones" None t
                          (sample_client server t).

End cloudflare.

(** ** The rest of [cloudflare.go]: the response types and [Raw] *)

Module cloudflare_rest.
Import errors http cloudflare.
Local Open Scope go_scope.

(** [ResponseInfo] contains a code and message returned by the API as errors
    or informational messages inside the response. *)
Record ResponseInfo : Type := mkResponseInfo {
  Code : Z;
  Message : string
}.

(** [Response] is a template: the part every response of the API has. *)
Record Response : Type := mkAPIResponse {
  Success : bool;
  Errors : list ResponseInfo;
  Messages : list ResponseInfo
}.

(** [ResultInfo] contains metadata about the [Response]. *)
Record ResultInfo : Type := mkResultInfo {
  Page : Z;
  PerPage : Z;
  TotalPages : Z;
  Count : Z;
  Total : Z
}.

(** [RawResponse] keeps the result as JSON form: the embedded [Response]
    and the bytes of the field [result]. *)
Record RawResponse : Type := mkRawResponse {
  Embedded : Response;
  Result : string
}.

Section RawCall.
Variable Params : Type.
Variable json_Marshal : Params -> string + error.
Variable NewRequest_check : string -> string -> option error.

(** [json.Unmarshal(res, &r)] into a [RawResponse]. *)
Variable json_Unmarshal : string -> RawResponse + error.

(** The message constants [errMakeRequestError] and [errUnmarshalError]. *)
Variable errMakeRequestError : string.
Variable errUnmarshalError : string.

(** [Raw] makes a HTTP request with user provided params and returns the
    result as untouched JSON. *)
Definition Raw (method endpoint : string) (data : option Params) : M string :=
  res <- wrapping errMakeRequestError
           (makeRequest Params json_Marshal NewRequest_check method endpoint data) ;;
  match json_Unmarshal res with
  | inr err => fail (Wrap err errUnmarshalError)
  | inl r => ret (Result r)
  end.
End RawCall.

(** *** Reading a run off its trace and its outcome *)

(** The number of times a body was closed among the events of a trace. *)
Fixpoint closes (tr : list event) : nat :=
  match tr with
  | [] => 0
  | EvClose :: rest => S (closes rest)
  | EvDo _ :: rest => closes rest
  end.

(** The number of bodies a run from [st] to [st'] has closed. *)
Definition closes_between (st st' : State) : nat :=
  closes (drop (length (trace (world st))) (trace (world st'))).


(** The request [request] hands to the transport, from the client, the
    authentication type, the stored headers and the arguments. *)
Definition outbound_of (a : API) (authType : Z) (stored : Header)
           (method uri : string) (reqBody : option string) : Outbound :=
  mkOutbound (if String.eqb method "" then "GET" else method)
             (BaseURL a +:+ uri)
             (outgoing_header a authType stored) reqBody.

(** The header names the client sets itself. *)
Definition client_headers : list string :=
  ["Authorization"; "X-Auth-Key"; "X-Auth-Email"; "X-Auth-User-Service-Key";
   "Content-Type"].

(** *** More of the concrete setting *)

(** A marshaller that refuses every value. *)
Definition marshal_refuses : string -> string + error :=
  fun _ => inr (External "json: unsupported type").

(** A [http.NewRequest] that refuses every method. *)
Definition reject_all : string -> string -> option error :=
  fun _ _ => Some (External "net/http: invalid method").

(** A server whose response body breaks off while it is read. *)
Definition broken_body_server (code : Z) : Client :=
  fun _ => inl (mkResponse code (mkBody "" (Some (External "unexpected EOF")))).

(** A zone listing that cannot be fetched. *)
Definition ListZones_fails : string -> M (list Zone) :=
  fun _ => fail (External "HTTP request failed").

(** A decoder of raw responses that accepts a body as the result of a
    response that reports no success. *)
Definition unmarshal_unsuccessful : string -> RawResponse + error :=
  fun res => inl (mkRawResponse (mkAPIResponse false [mkResponseInfo 1003 "Invalid zone"] []) res).


(** A client that holds a stored header map with a content type and a
    header of the user's own. *)
Definition custom_client (server : Client) (t : Z) : State :=
  mkState (mkAPI "tok" "key" "mail@example.com" "" apiURL "" (Some 0%nat)
                 (Some server) t)
          (mkWorld [<["Content-Type" := ["text/plain"]]>
                      (<["X-Trace" := ["on"]]> ∅)] []).

End cloudflare_rest.

(** * The log retriever: [package logshare]

The retriever is described by the specification alone; the definitions
of this module follow its sections 3, 4.2 and 7. *)

Module logshare.

(** Modelled from the spec: the error kinds of section 7, which belong to
    the retriever, a part of the repository outside the files embedded
    above.  [DecodeError] carries the index of the record at which
    decoding failed, [APIError] the status code and the raw body. *)
Inductive Error : Type :=
| InvalidQuery
| AuthError
| PermissionError
| TransientError
| DecodeError (index : nat)
| APIError (status : Z) (body : string).

(** Modelled from the spec: the [Query] of section 3, the request
    parameters of the retriever: the two selectors, each of which may be
    set or not, the count (a negative value is the unbounded sentinel), the
    list of fields and the timestamp format.  The sampling rate, which only
    the query string encodes, is left out. *)
Record Query : Type := mkQuery {
  RayID : option string;
  TimeRange : option (Z * Z);
  Count : Z;
  Fields : list string;
  TimestampFormat : option string
}.

(** Modelled from the spec: the validation of a [Query] (sections 3 and 7),
    the error it fails with, if any: exactly one selector must be set, and
    [StartTime < EndTime] when the time range is used. *)
Definition validate (q : Query) : option Error :=
  match RayID q, TimeRange q with
  | Some _, Some _ => Some InvalidQuery
  | None, None => Some InvalidQuery
  | Some _, None => None
  | None, Some (StartTime, EndTime) =>
      if StartTime <? EndTime then None else Some InvalidQuery
  end.

(** Modelled from the spec: the construction of a [Query], which fails
    with [InvalidQuery] when the invariant of section 3 does not hold. *)
Definition NewQuery (ray : option string) (range : option (Z * Z)) (count : Z)
           (fields : list string) (format : option string) : Error + Query :=
  let q := mkQuery ray range count fields format in
  match validate q with
  | Some e => inl e
  | None => inr q
  end.

(** Modelled from the spec: the [FetchResult] of section 3, the outcome of
    one call of the HTTP fetcher: the response body, a sequence of lines of
    newline-delimited JSON, or a classified error. *)
Inductive FetchResult : Type :=
| Fetched (body : list string)
| FetchFailed (e : Error).

(** Modelled from the spec: the states of a stream (section 4.2).
    [Fetching] and [Yielding] are passed through within one pull; a stream
    at rest is in one of the four states below.  [Decoding] holds the
    unread lines of the body and the index of the next record. *)
Inductive StreamState : Type :=
| NotStarted
| Decoding (unread : list string) (index : nat)
| Exhausted
| Failed (e : Error).

(** Modelled from the spec: a [Stream] (sections 3 and 4.2): the query
    it serves, its state, the number of records it has emitted, and the
    calls it has put on the network. *)
Record Stream : Type := mkStream {
  query : Query;
  state : StreamState;
  emitted : nat;
  calls : list Query
}.

(** Modelled from the spec: whether the stream has emitted [Count]
    records; a negative count never stops it (section 4.2). *)
Definition count_reached (s : Stream) : bool :=
  (0 <=? Count (query s)) && (Z.of_nat (emitted s) =? Count (query s)).



Section Retriever.
(** Modelled from the spec: a [LogRecord] is opaque to the retriever
    (section 3); [decode] is the JSON decoding of one line, which gives
    no record on a malformed line; [Fetch] is the HTTP fetcher of section
    4.1 seen from the retriever. *)
Variable LogRecord : Type.
Variable decode : string -> option LogRecord.
Variable Fetch : Query -> FetchResult.

(** Modelled from the spec: what one pull of the consumer gives: a
    record, the end of the stream, or an error. *)
Inductive Pulled : Type :=
| Yield (r : LogRecord)
| End
| Raised (e : Error).

(** Modelled from the spec: the entry point "retrieve records for
    Query Q" (section 6).  An invalid query fails fast and is never sent
    over the network (section 7). *)
Definition Retrieve (q : Query) : Stream :=
  match validate q with
  | Some e => mkStream q (Failed e) 0 []
  | None => mkStream q NotStarted 0 []
  end.

(** Modelled from the spec: the decoding discipline of section 4.2.  The
    stream ends once [Count] records have been emitted or the body is at
    its end; otherwise the next line is decoded, alone, and its record is
    yielded; a malformed line aborts the stream with a [DecodeError] at
    the index of that record. *)
Definition decode_next (s : Stream) (unread : list string) (index : nat)
  : Pulled * Stream :=
  if count_reached s then
    (End, mkStream (query s) Exhausted (emitted s) (calls s))
  else
    match unread with
    | [] => (End, mkStream (query s) Exhausted (emitted s) (calls s))
    | line :: rest =>
        match decode line with
        | Some r =>
            (Yield r,
             mkStream (query s) (Decoding rest (S index)) (S (emitted s))
                      (calls s))
        | None =>
            (Raised (DecodeError index),
             mkStream (query s) (Failed (DecodeError index)) (emitted s)
                      (calls s))
        end
    end.

(** Modelled from the spec: one pull on the stream, the state machine
    [NotStarted -> Fetching -> Decoding <-> Yielding -> Exhausted | Failed]
    of section 4.2.  An error of the fetcher is surfaced as it is, with no
    retry. *)
Definition pull (s : Stream) : Pulled * Stream :=
  match state s with
  | NotStarted =>
      let s' := mkStream (query s) NotStarted (emitted s)
                         (calls s ++ [query s]) in
      match Fetch (query s) with
      | Fetched body => decode_next s' body 0
      | FetchFailed e =>
          (Raised e, mkStream (query s') (Failed e) (emitted s') (calls s'))
      end
  | Decoding unread index => decode_next s unread index
  | Exhausted => (End, s)
  | Failed e => (Raised e, s)
  end.

(** Modelled from the spec: how a stream was left by a consumer that
    pulls until it ends: at its end, by an error, or still running when
    the consumer stopped. *)
Inductive Ending : Type :=
| Finished
| Aborted (e : Error)
| Running.

(** Modelled from the spec: a consumer that pulls at most [pulls] times
    and collects the records the stream yields, in order. *)
Fixpoint drain (pulls : nat) (s : Stream)
  : list LogRecord * Ending * Stream :=
  match pulls with
  | O => ([], Running, s)
  | S pulls' =>
      match pull s with
      | (Yield r, s') =>
          let '(rs, ending, s'') := drain pulls' s' in
          (r :: rs, ending, s'')
      | (End, s') => ([], Finished, s')
      | (Raised e, s') => ([], Aborted e, s')
      end
  end.
End Retriever.

(** *** A concrete setting to run the retriever in *)

(** A line counts as well-formed when it starts with an opening brace;
    the record of a line is the line itself. *)
Definition decode_sample (line : string) : option string :=
  match line with
  | String "{" _ => Some line
  | _ => None
  end.


Definition three_lines : list string :=
  ["{RayID:a}"; "{RayID:b}"; "{RayID:c}"].


(** A fetcher that answers every query with the same body. *)
Definition serve (body : list string) : Query -> FetchResult :=
  fun _ => Fetched body.

End logshare.

(** * The client: theorems *)

Module ClientFacts.
Import errors http cloudflare.
Local Open Scope go_scope.

(** ** Header maps in the heap *)

Lemma cloneHeader_copies (m : Header) :
  map_fold (fun k vs h => <[k := vs]> h) ∅ m = m.
Proof.
  apply (map_fold_weak_ind (fun r m => r = m)).
  - reflexivity.
  - intros i x m' r _ ->. reflexivity.
Qed.

Lemma deref_last (l : list Header) (x : Header) (t : list event) :
  deref (Some (length l)) (mkWorld (l ++ [x]) t) = x.
Proof. unfold deref. simpl. by rewrite list_lookup_middle. Qed.

Lemma deref_grows (h : href) (hp extra : list Header) (t t' : list event) :
  allocated h (mkWorld hp t) ->
  deref h (mkWorld (hp ++ extra) t') = deref h (mkWorld hp t).
Proof.
  destruct h as [l|]; [|reflexivity].
  unfold allocated, deref. cbn [heap]. intros Hl.
  by rewrite lookup_app_l.
Qed.

Lemma alter_last (f : Header -> Header) (l : list Header) (x : Header) :
  alter f (length l) (l ++ [x]) = l ++ [f x].
Proof.
  replace (length l) with (length l + 0)%nat by lia.
  by rewrite alter_app_r.
Qed.

Lemma Header_Set_last (a : API) (l : list Header) (x : Header)
      (t : list event) (k v : string) :
  Header_Set (Some (length l)) k v (mkState a (mkWorld (l ++ [x]) t))
  = (Ok tt, mkState a (mkWorld (l ++ [<[k := [v]]> x]) t)).
Proof. unfold Header_Set. simpl. by rewrite alter_last. Qed.

Lemma Header_Get_last (a : API) (l : list Header) (x : Header)
      (t : list event) (k : string) :
  Header_Get (Some (length l)) k (mkState a (mkWorld (l ++ [x]) t))
  = (Ok (Header_first x k), mkState a (mkWorld (l ++ [x]) t)).
Proof. unfold Header_Get. cbn [world]. by rewrite deref_last. Qed.

(** ** What [request] does, in one equation *)

Section Request.
Variable NewRequest_check : string -> string -> option error.

Lemma request_runs (method uri : string) (reqBody : option string)
      (authType : Z) (st : State) :
  let a := self st in
  let w := world st in
  let url := BaseURL a +:+ uri in
  let stored := deref (headers a) (mkWorld (heap w ++ [∅]) (trace w)) in
  let hdr := outgoing_header a authType stored in
  let out := mkOutbound (if String.eqb method "" then "GET" else method)
                        url hdr reqBody in
  request NewRequest_check method uri reqBody authType st =
  match NewRequest_check method url with
  | Some e => (Err (Wrap e "HTTP request creation failed"), st)
  | None =>
      match httpClient a with
      | None =>
          (Panic "invalid memory address or nil pointer dereference",
           mkState a (mkWorld (heap w ++ [∅; hdr]) (trace w)))
      | Some do =>
          (match do out with
           | inl resp => Ok resp
           | inr e => Err (Wrap e "HTTP request failed")
           end,
           mkState a (mkWorld (heap w ++ [∅; hdr]) (trace w ++ [EvDo out])))
      end
  end.
Proof.
  destruct st as [a [hp tr]]. cbn zeta. cbn [self world heap trace].
  unfold request, bind, field, wrapping, http_NewRequest.
  cbn [self world heap trace].
  destruct (NewRequest_check method (BaseURL a +:+ uri)) as [e|]; [reflexivity|].
  unfold bind, cloneHeader, alloc, alloc_in, ret. cbn [self world heap trace].
  rewrite cloneHeader_copies.
  set (stored := deref (headers a) _).
  unfold outgoing_header, with_auth.
  replace (hp ++ [∅; _]) with ((hp ++ [∅]) ++ [outgoing_header a authType stored])
    by (by rewrite <- app_assoc).
  unfold outgoing_header, with_auth.
  set (hp' := hp ++ [∅]).
  unfold when.
  destruct (negb (Z.land authType AuthApiToken =? 0)%Z);
    destruct (negb (Z.land authType AuthKeyEmail =? 0)%Z);
    destruct (negb (Z.land authType AuthUserService =? 0)%Z);
    unfold ret;
    rewrite ?Header_Set_last; cbn [self world heap trace];
    rewrite ?Header_Set_last; cbn [self world heap trace];
    rewrite ?Header_Set_last; cbn [self world heap trace];
    rewrite ?Header_Set_last; cbn [self world heap trace];
    rewrite Header_Get_last;
    match goal with
    | |- context [String.eqb (Header_first ?m ?k) ""] =>
        destruct (String.eqb (Header_first m k) "")
    end;
    rewrite ?Header_Set_last; cbn [self world heap trace];
    (destruct (httpClient a) as [do|]; [|reflexivity]);
    unfold Client_Do, emit; cbn [self world heap trace Method URL ReqHeader ReqBody];
    rewrite deref_last;
    match goal with
    | |- context [do ?o] => destruct (do o)
    end; reflexivity.
Qed.

Variable Params : Type.
Variable json_Marshal : Params -> string + error.

Lemma makeRequestWithAuthType_runs (method uri : string)
      (params : option Params) (authType : Z) (st : State) :
  makeRequestWithAuthType Params json_Marshal NewRequest_check
                          method uri params authType st =
  match marshalled Params json_Marshal params with
  | Ok reqBody =>
      match request NewRequest_check method uri reqBody authType st with
      | (Ok resp, st1) =>
          (match read_error (RespBody resp) with
           | Some e => Err (Wrap e "could not read response body")
           | None => status_switch (StatusCode resp) (content (RespBody resp))
           end,
           mkState (self st1)
                   (mkWorld (heap (world st1)) (trace (world st1) ++ [EvClose])))
      | (Err e, st1) => (Err e, st1)
      | (Panic msg, st1) => (Panic msg, st1)
      end
  | Err e => (Err e, st)
  | Panic msg => (Panic msg, st)
  end.
Proof.
  unfold makeRequestWithAuthType, marshalled, bind.
  destruct params as [p|].
  - destruct (json_Marshal p) as [json|err]; [|reflexivity].
    unfold ret.
    destruct (request _ _ _ _ _ _) as [[resp|e|msg] st1]; try reflexivity.
    unfold defer, bind, wrapping, ReadAll, Body_Close, emit.
    destruct (read_error (RespBody resp)); reflexivity.
  - unfold ret.
    destruct (request _ _ _ _ _ _) as [[resp|e|msg] st1]; try reflexivity.
    unfold defer, bind, wrapping, ReadAll, Body_Close, emit.
    destruct (read_error (RespBody resp)); reflexivity.
Qed.

(** The result of a fetch whose round trip delivered [resp] with a
    readable body is decided by the status switch alone. *)
Lemma fetch_result (method uri : string) (params : option Params)
      (authType : Z) (st st1 : State) (reqBody : option string)
      (resp : Response) :
  marshalled Params json_Marshal params = Ok reqBody ->
  request NewRequest_check method uri reqBody authType st = (Ok resp, st1) ->
  read_error (RespBody resp) = None ->
  fst (makeRequestWithAuthType Params json_Marshal NewRequest_check
                               method uri params authType st)
  = status_switch (StatusCode resp) (content (RespBody resp)).
Proof.
  intros Hm Hr Hb. rewrite makeRequestWithAuthType_runs, Hm, Hr, Hb.
  reflexivity.
Qed.

End Request.

(** ** The status switch *)

Lemma status_switch_200 (body : string) : status_switch 200 body = Ok body.
Proof. reflexivity. Qed.

Lemma status_switch_not_200 (code : Z) (body : string) :
  code <> 200 -> is_Err (status_switch code body).
Proof.
  intros Hc. unfold status_switch, StatusOK.
  destruct (Z.eqb_spec code 200) as [->|_]; [lia|].
  repeat match goal with
         | |- context [if ?b then _ else _] => destruct b
         end; exact I.
Qed.


(** ** Classification of the outcome by status code *)



Lemma append_nil_r (s : string) : s +:+ "" = s.
Proof.
  induction s as [|c s IH]; [reflexivity|].
  change (String c (s +:+ "") = String c s). by rewrite IH.
Qed.

(** The messages of the four errors, as [Error()] renders them. *)
Lemma status_errors_render (quote : string -> string) (code : Z) (body : string) :
  Error quote (Errorf "HTTP status %d: invalid credentials" [IntArg 401])
  = "HTTP status 401: invalid credentials"
  /\ Error quote (Errorf "HTTP status %d: insufficient permissions" [IntArg 403])
     = "HTTP status 403: insufficient permissions"
  /\ Error quote (Errorf "HTTP status %d: service failure" [IntArg code])
     = "HTTP status " +:+ itoa code +:+ ": service failure"
  /\ Error quote (Errorf "HTTP status %d: content %q" [IntArg code; StrArg body])
     = "HTTP status " +:+ itoa code +:+ ": content " +:+ quote body.
Proof.
  repeat split; try reflexivity.
  cbn. by rewrite append_nil_r.
Qed.

(** ** Success *)

(** C3, as the code has it.  Whenever the round trip of a fetch delivers a
    response whose body can be read, the fetch returns that body with no
    error exactly when the status is 200; every other status, the other
    statuses of the 2xx range among them, gives an error. *)
Theorem fetch_succeeds_iff_200
        (Params : Type) (json_Marshal : Params -> string + error)
        (NewRequest_check : string -> string -> option error)
        (method uri : string) (params : option Params) (authType : Z)
        (st st1 : State) (reqBody : option string) (resp : Response) :
  marshalled Params json_Marshal params = Ok reqBody ->
  request NewRequest_check method uri reqBody authType st = (Ok resp, st1) ->
  read_error (RespBody resp) = None ->
  let code := StatusCode resp in
  let body := content (RespBody resp) in
  let r := fst (makeRequestWithAuthType Params json_Marshal NewRequest_check
                                        method uri params authType st) in
  (code = 200 -> r = Ok body)
  /\ (code <> 200 -> is_Err r)
  /\ (is_Ok r <-> code = 200).
Proof.
  intros Hm Hr Hb code body r.
  assert (Hres : r = status_switch code body)
    by (unfold r; by erewrite fetch_result).
  rewrite Hres. split; [|split; [|split]].
  - intros ->. reflexivity.
  - apply status_switch_not_200.
  - intros Hok. destruct (decide (code = 200)) as [|Hne]; [done|].
    pose proof (status_switch_not_200 code body Hne) as He.
    destruct (status_switch code body); done.
  - intros ->. exact I.
Qed.

Lemma fetch_succeeds_iff_200_witness :
  fst (sample_fetch (fixed_server 200 "[]") AuthKeyEmail) = Ok "[]"
  /\ is_Err (fst (sample_fetch (fixed_server 204 "") AuthKeyEmail)).
Proof.
  split.
  - eapply (fetch_succeeds_iff_200 string marshal_text accept_all
              "GET" "/zones" None AuthKeyEmail
              (sample_client (fixed_server 200 "[]") AuthKeyEmail)
              _ None (mkResponse 200 (mkBody "[]" None))).
    + reflexivity.
    + vm_compute. reflexivity.
    + reflexivity.
    + reflexivity.
  - eapply (fetch_succeeds_iff_200 string marshal_text accept_all
              "GET" "/zones" None AuthKeyEmail
              (sample_client (fixed_server 204 "") AuthKeyEmail)
              _ None (mkResponse 204 (mkBody "" None))).
    + reflexivity.
    + vm_compute. reflexivity.
    + reflexivity.
    + compute_done.
Defined.

(** A response with status 201, in the 2xx range, makes the fetch fail. *)
Lemma status_201_is_an_error :
  is_2xx 201
  /\ fst (sample_fetch (fixed_server 201 "created") AuthKeyEmail)
     = Err (Errorf "HTTP status %d: content %q"
                   [IntArg 201; StrArg "created"]).
Proof. split; [unfold is_2xx; lia | vm_compute; reflexivity]. Qed.

(** ** The frame of a fetch *)

Section Frame.
Variable Params : Type.
Variable json_Marshal : Params -> string + error.
Variable NewRequest_check : string -> string -> option error.

Lemma grows_refl (st : State) : grows st st.
Proof.
  repeat split; [exists [] | exists []]; by rewrite app_nil_r.
Qed.

Lemma request_grows (method uri : string) (reqBody : option string)
      (authType : Z) (st : State) :
  grows st (snd (request NewRequest_check method uri reqBody authType st)).
Proof.
  rewrite request_runs.
  destruct (NewRequest_check _ _); [apply grows_refl|].
  destruct (httpClient (self st)) as [do|]; cbn [snd].
  - repeat split; cbn [self world heap trace]; eauto.
  - repeat split; cbn [self world heap trace]; eauto.
    exists []. by rewrite app_nil_r.
Qed.

Lemma makeRequestWithAuthType_grows (method uri : string)
      (params : option Params) (authType : Z) (st : State) :
  grows st (snd (makeRequestWithAuthType Params json_Marshal NewRequest_check
                                         method uri params authType st)).
Proof.
  rewrite makeRequestWithAuthType_runs.
  destruct (marshalled _ _ _) as [reqBody|e|msg]; try apply grows_refl.
  pose proof (request_grows method uri reqBody authType st) as Hg.
  destruct (request _ _ _ _ _ _) as [[resp|e|msg] st1]; cbn [snd] in *;
    try exact Hg.
  destruct Hg as (Hs & [extra He] & [more Hm]).
  repeat split; cbn [self world heap trace]; eauto.
  exists (more ++ [EvClose]). by rewrite Hm, app_assoc.
Qed.
End Frame.

(** C5.  A fetch leaves the client as it was: every field of the receiver
    has the value it had before the call, every header map that existed
    before the call has the contents it had (the request works on a copy
    at a new address), and so the stored header map reads the same after
    the call as before. *)
Theorem fetch_leaves_client_unchanged
        (Params : Type) (json_Marshal : Params -> string + error)
        (NewRequest_check : string -> string -> option error)
        (method uri : string) (params : option Params) (authType : Z)
        (st : State) :
  let st' := snd (makeRequestWithAuthType Params json_Marshal NewRequest_check
                                          method uri params authType st) in
  self st' = self st
  /\ (forall (l : nat) (m : Header),
         heap (world st) !! l = Some m -> heap (world st') !! l = Some m)
  /\ (allocated (headers (self st)) (world st) ->
      deref (headers (self st')) (world st')
      = deref (headers (self st)) (world st)).
Proof.
  intros st'.
  destruct (makeRequestWithAuthType_grows Params json_Marshal NewRequest_check
              method uri params authType st) as (Hs & [extra He] & _).
  fold st' in Hs, He. split; [exact Hs|]. split.
  - intros l m Hl. rewrite He. by apply lookup_app_l_Some.
  - intros Ha. rewrite Hs.
    destruct (world st') as [hp' tr'], (world st) as [hp tr].
    cbn [heap] in He. subst hp'. by apply deref_grows.
Qed.

Lemma fetch_leaves_client_unchanged_witness :
  allocated (headers (self (sample_client (fixed_server 200 "[]") AuthApiToken)))
            (world (sample_client (fixed_server 200 "[]") AuthApiToken))
  /\ deref (headers (self (snd (sample_fetch (fixed_server 200 "[]") AuthApiToken))))
           (world (snd (sample_fetch (fixed_server 200 "[]") AuthApiToken)))
     = deref (headers (self (sample_client (fixed_server 200 "[]") AuthApiToken)))
             (world (sample_client (fixed_server 200 "[]") AuthApiToken)).
Proof.
  split.
  - cbn. lia.
  - apply (fetch_leaves_client_unchanged string marshal_text accept_all
             "GET" "/zones" None AuthApiToken
             (sample_client (fixed_server 200 "[]") AuthApiToken)).
    cbn. lia.
Defined.

(** ** The credentials a request carries *)

Lemma outgoing_header_lookup (a : API) (t : Z) (stored : Header) (k : string) :
  k <> "Content-Type" ->
  outgoing_header a t stored !! k = with_auth a t stored !! k.
Proof.
  intros Hk. unfold outgoing_header.
  destruct (String.eqb _ ""); [|reflexivity].
  by rewrite lookup_insert_ne.
Qed.

Lemma with_auth_Authorization (a : API) (t : Z) (stored : Header) :
  with_auth a t stored !! "Authorization"
  = if negb (Z.land t AuthApiToken =? 0)%Z
    then Some ["Bearer " +:+ APIToken a] else stored !! "Authorization".
Proof.
  unfold with_auth.
  destruct (negb (Z.land t AuthApiToken =? 0)%Z),
           (negb (Z.land t AuthKeyEmail =? 0)%Z),
           (negb (Z.land t AuthUserService =? 0)%Z);
    by simplify_map_eq.
Qed.

Lemma with_auth_Key (a : API) (t : Z) (stored : Header) :
  with_auth a t stored !! "X-Auth-Key"
  = if negb (Z.land t AuthKeyEmail =? 0)%Z
    then Some [APIKey a] else stored !! "X-Auth-Key".
Proof.
  unfold with_auth.
  destruct (negb (Z.land t AuthApiToken =? 0)%Z),
           (negb (Z.land t AuthKeyEmail =? 0)%Z),
           (negb (Z.land t AuthUserService =? 0)%Z);
    by simplify_map_eq.
Qed.

Lemma with_auth_Email (a : API) (t : Z) (stored : Header) :
  with_auth a t stored !! "X-Auth-Email"
  = if negb (Z.land t AuthKeyEmail =? 0)%Z
    then Some [APIEmail a] else stored !! "X-Auth-Email".
Proof.
  unfold with_auth.
  destruct (negb (Z.land t AuthApiToken =? 0)%Z),
           (negb (Z.land t AuthKeyEmail =? 0)%Z),
           (negb (Z.land t AuthUserService =? 0)%Z);
    by simplify_map_eq.
Qed.

Lemma with_auth_UserServiceKey (a : API) (t : Z) (stored : Header) :
  with_auth a t stored !! "X-Auth-User-Service-Key"
  = if negb (Z.land t AuthUserService =? 0)%Z
    then Some [APIUserServiceKey a] else stored !! "X-Auth-User-Service-Key".
Proof.
  unfold with_auth.
  destruct (negb (Z.land t AuthApiToken =? 0)%Z),
           (negb (Z.land t AuthKeyEmail =? 0)%Z),
           (negb (Z.land t AuthUserService =? 0)%Z);
    by simplify_map_eq.
Qed.

Section Sent.
Variable Params : Type.
Variable json_Marshal : Params -> string + error.
Variable NewRequest_check : string -> string -> option error.

Lemma sent_app (tr tr' : list event) : sent (tr ++ tr') = sent tr ++ sent tr'.
Proof.
  induction tr as [|[out|] tr IH]; cbn; [reflexivity| |exact IH].
  by rewrite IH.
Qed.

Lemma sent_between_app (a a' : API) (hp hp' : list Header)
      (tr more : list event) :
  sent_between (mkState a (mkWorld hp tr)) (mkState a' (mkWorld hp' (tr ++ more)))
  = sent more.
Proof. unfold sent_between. cbn [world trace]. by rewrite drop_app_length. Qed.

Lemma sent_between_quiet (st st' : State) :
  trace (world st') = trace (world st) -> sent_between st st' = [].
Proof. unfold sent_between. intros ->. by rewrite drop_all. Qed.

Lemma sent_between_same (st : State) : sent_between st st = [].
Proof. by apply sent_between_quiet. Qed.

(** A fetch sends at most one request, and its header map is the stored
    one with the credentials on top. *)
Lemma fetch_sends (method uri : string) (params : option Params)
      (authType : Z) (st : State) (out : Outbound) :
  allocated (headers (self st)) (world st) ->
  out ∈ sent_between st (snd (makeRequestWithAuthType
                                Params json_Marshal NewRequest_check
                                method uri params authType st)) ->
  out_header out
  = outgoing_header (self st) authType (deref (headers (self st)) (world st)).
Proof.
  intros Ha. rewrite makeRequestWithAuthType_runs.
  destruct (marshalled _ _ _) as [reqBody|e|msg]; cbn [snd];
    rewrite ?sent_between_same; try by intros ?%elem_of_nil.
  rewrite request_runs.
  destruct st as [a [hp tr]]. cbn [self world heap trace] in *.
  rewrite (deref_grows _ hp [∅] tr tr) by exact Ha.
  destruct (NewRequest_check _ _); cbn [snd];
    rewrite ?sent_between_same; try by intros ?%elem_of_nil.
  destruct (httpClient a) as [do|]; cbn [snd].
  - destruct (do _); cbn [snd self world heap trace].
    + rewrite <- app_assoc, sent_between_app. cbn [sent app].
      by intros ->%list_elem_of_singleton.
    + rewrite sent_between_app. cbn [sent].
      by intros ->%list_elem_of_singleton.
  - rewrite sent_between_quiet by reflexivity. by intros ?%elem_of_nil.
Qed.

Lemma makeRequest_unfold (method uri : string) (params : option Params)
      (st : State) :
  makeRequest Params json_Marshal NewRequest_check method uri params st
  = makeRequestWithAuthType Params json_Marshal NewRequest_check
                            method uri params (authType (self st)) st.
Proof. reflexivity. Qed.
End Sent.

(** C2, as the code has it.  Every request a fetch sends carries the
    credentials of the authentication methods selected by the bits of its
    authentication type, set on top of the stored headers: the header
    [Authorization: Bearer <token>] for [AuthApiToken], the pair
    [X-Auth-Key], [X-Auth-Email] for [AuthKeyEmail], the header
    [X-Auth-User-Service-Key] for [AuthUserService]; a header whose method
    is not selected is left as the stored headers have it.  In particular a
    client whose authentication type is [AuthApiToken] sends the bearer
    header with its token on every request and sets neither [X-Auth-Key] nor
    [X-Auth-Email], and a client whose authentication type is
    [AuthKeyEmail] sends the pair and sets no [Authorization] header. *)
Theorem sent_credentials
        (Params : Type) (json_Marshal : Params -> string + error)
        (NewRequest_check : string -> string -> option error)
        (method uri : string) (params : option Params) (st : State) :
  allocated (headers (self st)) (world st) ->
  let a := self st in
  let stored := deref (headers a) (world st) in
  (forall (t : Z) (out : Outbound),
      out ∈ sent_between st (snd (makeRequestWithAuthType
                                    Params json_Marshal NewRequest_check
                                    method uri params t st)) ->
      out_header out !! "Authorization"
      = (if negb (Z.land t AuthApiToken =? 0)%Z
         then Some ["Bearer " +:+ APIToken a] else stored !! "Authorization")
      /\ out_header out !! "X-Auth-Key"
         = (if negb (Z.land t AuthKeyEmail =? 0)%Z
            then Some [APIKey a] else stored !! "X-Auth-Key")
      /\ out_header out !! "X-Auth-Email"
         = (if negb (Z.land t AuthKeyEmail =? 0)%Z
            then Some [APIEmail a] else stored !! "X-Auth-Email")
      /\ out_header out !! "X-Auth-User-Service-Key"
         = (if negb (Z.land t AuthUserService =? 0)%Z
            then Some [APIUserServiceKey a]
            else stored !! "X-Auth-User-Service-Key"))
  /\ (forall out : Outbound,
         out ∈ sent_between st (snd (makeRequest
                                       Params json_Marshal NewRequest_check
                                       method uri params st)) ->
         (authType a = AuthApiToken ->
          credentials_of out
          = (Some ["Bearer " +:+ APIToken a],
             stored !! "X-Auth-Key", stored !! "X-Auth-Email"))
         /\ (authType a = AuthKeyEmail ->
             credentials_of out
             = (stored !! "Authorization",
                Some [APIKey a], Some [APIEmail a]))).
Proof.
  intros Ha a stored.
  assert (Hgen : forall (t : Z) (out : Outbound),
             out ∈ sent_between st (snd (makeRequestWithAuthType
                                           Params json_Marshal NewRequest_check
                                           method uri params t st)) ->
             forall k, k <> "Content-Type" ->
                       out_header out !! k = with_auth a t stored !! k).
  { intros t out Hin k Hk.
    rewrite (fetch_sends _ _ _ _ _ _ _ _ _ Ha Hin).
    by apply outgoing_header_lookup. }
  split.
  - intros t out Hin.
    rewrite !(Hgen t out Hin) by done.
    rewrite with_auth_Authorization, with_auth_Key, with_auth_Email,
      with_auth_UserServiceKey.
    done.
  - intros out Hin. rewrite makeRequest_unfold in Hin.
    unfold credentials_of.
    rewrite !(Hgen _ out Hin) by done.
    rewrite with_auth_Authorization, with_auth_Key, with_auth_Email.
    fold a. split; intros ->; reflexivity.
Qed.

Lemma sent_credentials_witness :
  allocated (headers (self (sample_client (fixed_server 200 "[]") AuthApiToken)))
            (world (sample_client (fixed_server 200 "[]") AuthApiToken))
  /\ credentials_of
       (mkOutbound "GET" "https://api.cloudflare.com/client/v4/zones"
          (outgoing_header
             (self (sample_client (fixed_server 200 "[]") AuthApiToken))
             AuthApiToken ∅) None)
     = (Some ["Bearer tok"], None, None).
Proof.
  split; [cbn; lia|].
  refine (proj1 (proj2 (sent_credentials string marshal_text accept_all
                          "GET" "/zones" None
                          (sample_client (fixed_server 200 "[]") AuthApiToken)
                          _) _ _) _).
  - cbn. lia.
  - vm_compute. apply list_elem_of_here.
  - reflexivity.
Defined.

(** A client made by [New] from a token alone sends no [Authorization]
    header: its request carries the key and email pair, both empty. *)
Lemma token_only_client_sends_no_bearer :
  credentials_of
    <$> requests_after_New (fixed_server 200 "[]") "tok" "" "" [] None
                           "GET" "/zones"
  = [(None, Some [""], Some [""])].
Proof. vm_compute. reflexivity. Qed.

(** The same client after [SetAuthType(AuthApiToken)]. *)
Lemma token_client_after_SetAuthType :
  credentials_of
    <$> requests_after_New (fixed_server 200 "[]") "tok" "" "" []
                           (Some AuthApiToken) "GET" "/zones"
  = [(Some ["Bearer tok"], None, None)].
Proof. vm_compute. reflexivity. Qed.

(** ** Construction of the client *)

(** C4, as the code has it.  [New] fails with the empty-credentials error
    exactly when the token is empty and the key or the email is empty.
    With a non-empty token, or a non-empty key and a non-empty email, it
    succeeds exactly when the options are parsed without error; an error
    of an option makes it fail with that error wrapped as
    "options parsing failed". *)
Theorem New_fails_iff
        (DefaultClient : Client) (errEmptyCredentials : string)
        (Option : Type) (parseOptions : list Option -> M unit)
        (token key email : string) (opts : list Option) (w : World) :
  let r := fst (New DefaultClient errEmptyCredentials Option parseOptions
                    token key email opts w) in
  let empty := token = "" /\ (key = "" \/ email = "") in
  let st0 := mkState (mkAPI token key email "" apiURL ""
                            (Some (length (heap w))) None AuthKeyEmail)
                     (mkWorld (heap w ++ [∅]) (trace w)) in
  (r = Err (errors.New errEmptyCredentials) <-> empty)
  /\ (~ empty -> (is_Ok r <-> is_Ok (fst (parseOptions opts st0))))
  /\ (~ empty -> forall e : error,
         fst (parseOptions opts st0) = Err e ->
         r = Err (Wrap e "options parsing failed")).
Proof.
  cbn zeta. unfold New, alloc_in.
  destruct (String.eqb_spec token "") as [Ht|Ht];
    destruct (String.eqb_spec key "") as [Hk|Hk];
    destruct (String.eqb_spec email "") as [He|He];
    cbn [andb orb fst];
    repeat split;
    try (intros; tauto);
    try (destruct (parseOptions opts _) as [[[]|e'|msg] st']; cbn [fst];
         intros; try tauto; try discriminate; try congruence).
Qed.

Lemma New_fails_iff_witness :
  ~ ("tok" = "" /\ ("" = "" \/ "" = ""))
  /\ is_Ok (fst (New_in (fixed_server 200 "[]") "tok" "" "" [])).
Proof.
  assert (Hne : ~ ("tok" = "" /\ ("" = "" \/ "" = "")))
    by (intros [Hfalse _]; discriminate Hfalse).
  split; [exact Hne|].
  apply (proj1 (proj2 (New_fails_iff (fixed_server 200 "[]") "empty credentials"
                         (M unit) apply_options "tok" "" "" [] empty_world))
               Hne).
  exact I.
Defined.

(** [New] without options, in the concrete setting, gives the sample
    client. *)
Lemma New_in_sample (server : Client) :
  New_in server "tok" "key" "mail@example.com" []
  = (Ok (self (sample_client server AuthKeyEmail)),
     world (sample_client server AuthKeyEmail)).
Proof. reflexivity. Qed.

(** With valid credentials and an option that returns an error, [New]
    returns an error. *)
Lemma New_fails_on_bad_option :
  ~ ("tok" = "" /\ ("key" = "" \/ "mail@example.com" = ""))
  /\ fst (New_in (fixed_server 200 "[]") "tok" "key" "mail@example.com"
                 [fail (External "bad option")])
     = Err (Wrap (External "bad option") "options parsing failed").
Proof. split; [intros [Hfalse _]; discriminate Hfalse | reflexivity]. Qed.

(** Without options, [New] returns an error exactly when the credentials
    are empty. *)
Lemma New_without_options (DefaultClient : Client) (errEmptyCredentials : string)
      (token key email : string) (w : World) :
  is_Err (fst (New DefaultClient errEmptyCredentials (M unit) apply_options
                   token key email [] w))
  <-> token = "" /\ (key = "" \/ email = "").
Proof.
  unfold New, alloc_in.
  destruct (String.eqb_spec token "") as [Ht|Ht];
    destruct (String.eqb_spec key "") as [Hk|Hk];
    destruct (String.eqb_spec email "") as [He|He];
    cbn; tauto.
Qed.

(** ** Zone lookup by name *)

Lemma first_zone_named_hit (zoneName : string) (res : list Zone) (i : nat)
      (zone : Zone) :
  res !! i = Some zone ->
  Name zone = zoneName ->
  (forall (j : nat) (z : Zone), (j < i)%nat -> res !! j = Some z -> Name z <> zoneName) ->
  first_zone_named zoneName res = Ok (ID zone).
Proof.
  revert i. induction res as [|z0 rest IH]; intros i Hi Hn Hbefore; [done|].
  cbn [first_zone_named]. destruct i as [|i].
  - cbn in Hi. injection Hi as ->.
    by rewrite (proj2 (String.eqb_eq _ _) Hn).
  - destruct (String.eqb_spec (Name z0) zoneName) as [Heq|_].
    + exfalso. apply (Hbefore 0%nat z0); [lia|reflexivity|exact Heq].
    + apply (IH i); [exact Hi|exact Hn|].
      intros j z Hj Hz. apply (Hbefore (S j) z); [lia|exact Hz].
Qed.

Lemma first_zone_named_miss (zoneName : string) (res : list Zone) :
  (forall z : Zone, z ∈ res -> Name z <> zoneName) ->
  first_zone_named zoneName res = Err (errors.New "Zone could not be found").
Proof.
  induction res as [|z0 rest IH]; intros Hno; [reflexivity|].
  cbn [first_zone_named].
  destruct (String.eqb_spec (Name z0) zoneName) as [Heq|_].
  - exfalso. apply (Hno z0); [apply list_elem_of_here|exact Heq].
  - apply IH. intros z Hz. apply Hno. by apply list_elem_of_further.
Qed.

(** C10.  When the API returns the zone listing [res], [ZoneIDByName]
    returns the ID of the first zone of the listing whose name is equal,
    character for character, to the requested name, and the error
    "Zone could not be found" when no zone of the listing has that name. *)
Theorem ZoneIDByName_first_match
        (ListZones : string -> M (list Zone)) (zoneName : string)
        (st st1 : State) (res : list Zone) :
  ListZones zoneName st = (Ok res, st1) ->
  let r := ZoneIDByName ListZones zoneName st in
  snd r = st1
  /\ (forall (i : nat) (zone : Zone),
         res !! i = Some zone ->
         Name zone = zoneName ->
         (forall (j : nat) (z : Zone),
             (j < i)%nat -> res !! j = Some z -> Name z <> zoneName) ->
         fst r = Ok (ID zone))
  /\ ((forall z : Zone, z ∈ res -> Name z <> zoneName) ->
      fst r = Err (errors.New "Zone could not be found")).
Proof.
  intros HL. cbn zeta. unfold ZoneIDByName, bind, wrapping. rewrite HL.
  cbn [fst snd]. split; [reflexivity|]. split.
  - apply first_zone_named_hit.
  - apply first_zone_named_miss.
Qed.

Lemma ZoneIDByName_first_match_witness :
  fst (ZoneIDByName (fun _ => ret sample_zones) "example.com"
                    (sample_client no_route AuthKeyEmail))
  = Ok "id-2"
  /\ fst (ZoneIDByName (fun _ => ret sample_zones) "example.org"
                       (sample_client no_route AuthKeyEmail))
     = Err (errors.New "Zone could not be found").
Proof.
  split.
  - refine (proj1 (proj2 (ZoneIDByName_first_match
                            (fun _ => ret sample_zones) "example.com"
                            (sample_client no_route AuthKeyEmail) _ sample_zones
                            eq_refl))
                  1%nat (mkZone "id-2" "example.com") eq_refl eq_refl _).
    intros [|j] z Hj Hz; [|lia].
    cbn in Hz. injection Hz as <-. cbn. discriminate.
  - refine (proj2 (proj2 (ZoneIDByName_first_match
                            (fun _ => ret sample_zones) "example.org"
                            (sample_client no_route AuthKeyEmail) _ sample_zones
                            eq_refl)) _).
    intros z Hz. unfold sample_zones in Hz.
    repeat (apply elem_of_cons in Hz as [-> | Hz]; [cbn; discriminate|]).
    by apply elem_of_nil in Hz.
Defined.

End ClientFacts.

(** * The retriever: theorems *)

Module RetrieverFacts.
Import logshare.

Section Streams.
Variable LogRecord : Type.
Variable decode : string -> option LogRecord.
Variable Fetch : Query -> FetchResult.

Local Abbreviation pull := (pull LogRecord decode Fetch).
Local Abbreviation drain := (drain LogRecord decode Fetch).
Local Abbreviation decodes := (Forall2 (fun line r => decode line = Some r)).







(** A stream made for an invalid query never fetches. *)
Lemma drain_invalid (q : Query) (e : Error) (pulls : nat) :
  validate q = Some e ->
  drain (S pulls) (Retrieve q) = ([], Aborted e, mkStream q (Failed e) 0 []).
Proof. intros Hv. unfold Retrieve. rewrite Hv. reflexivity. Qed.

Lemma validate_InvalidQuery (q : Query) (e : Error) :
  validate q = Some e -> e = InvalidQuery.
Proof.
  unfold validate.
  destruct (RayID q), (TimeRange q) as [[StartTime EndTime]|];
    try destruct (StartTime <? EndTime); congruence.
Qed.

End Streams.






(** C9.  A query is valid exactly when one selector is set, the ray ID or
    the time range but not both, with [StartTime < EndTime] for the time
    range.  Constructing a query with both selectors or with neither fails
    with [InvalidQuery], and the stream of an invalid query raises
    [InvalidQuery], yields no record and puts no call on the network. *)
Theorem valid_query_has_one_selector
        (LogRecord : Type) (decode : string -> option LogRecord)
        (Fetch : Query -> FetchResult)
        (ray : option string) (range : option (Z * Z)) (count : Z)
        (fields : list string) (format : option string) :
  let q := mkQuery ray range count fields format in
  (NewQuery ray range count fields format = inr q
   <-> (is_Some ray /\ range = None)
       \/ (ray = None
           /\ exists StartTime EndTime : Z,
               range = Some (StartTime, EndTime) /\ StartTime < EndTime))
  /\ (is_Some ray /\ is_Some range ->
      NewQuery ray range count fields format = inl InvalidQuery)
  /\ (ray = None /\ range = None ->
      NewQuery ray range count fields format = inl InvalidQuery)
  /\ (NewQuery ray range count fields format = inl InvalidQuery ->
      forall pulls : nat,
        let result := drain LogRecord decode Fetch (S pulls) (Retrieve q) in
        result.1.1 = [] /\ result.1.2 = Aborted InvalidQuery
        /\ calls result.2 = []).
Proof.
  cbn zeta. unfold NewQuery.
  split; [|split; [|split]].
  - unfold validate. cbn [RayID TimeRange].
    destruct ray as [r|], range as [[StartTime EndTime]|].
    + split; [discriminate|].
      intros [[_ ?] | [? _]]; discriminate.
    + split; [intros _; left; eauto|reflexivity].
    + destruct (Z.ltb_spec StartTime EndTime) as [Hlt|Hge].
      * split; [intros _; right; eauto|reflexivity].
      * split; [discriminate|].
        intros [[[? ?] _] | [_ (s0 & e0 & Heq & Hlt)]]; [discriminate|].
        injection Heq as -> ->. lia.
    + split; [discriminate|].
      intros [[[? ?] _] | [_ (s0 & e0 & Heq & _)]]; discriminate.
  - intros [[r ->] [[StartTime EndTime] ->]]. reflexivity.
  - intros [-> ->]. reflexivity.
  - intros Hnew pulls.
    destruct (validate _) as [e|] eqn:Hv; [|discriminate].
    injection Hnew as ->.
    rewrite (drain_invalid LogRecord decode Fetch _ InvalidQuery pulls Hv).
    done.
Qed.

Lemma valid_query_has_one_selector_witness :
  NewQuery (Some "4f1c2a9b") (Some (1000, 2000)) 1 [] None = inl InvalidQuery
  /\ calls (drain string decode_sample (serve three_lines) 3
                  (Retrieve (mkQuery (Some "4f1c2a9b") (Some (1000, 2000)) 1 [] None))).2
     = [].
Proof.
  assert (Hboth : NewQuery (Some "4f1c2a9b") (Some (1000, 2000)) 1 [] None
                  = inl InvalidQuery).
  { apply (proj1 (proj2 (valid_query_has_one_selector
                           string decode_sample (serve three_lines)
                           (Some "4f1c2a9b") (Some (1000, 2000)) 1 [] None))).
    split; eexists; reflexivity. }
  split; [exact Hboth|].
  apply (proj2 (proj2 (proj2 (valid_query_has_one_selector
                                string decode_sample (serve three_lines)
                                (Some "4f1c2a9b") (Some (1000, 2000)) 1 [] None)))
               Hboth 2%nat).
Defined.

End RetrieverFacts.

(** * The client: further theorems *)

Module ClientExtras.
Import errors http cloudflare cloudflare_rest.
Local Open Scope go_scope.

(** ** The events of a fetch *)

Lemma closes_app (tr tr' : list event) : closes (tr ++ tr') = (closes tr + closes tr')%nat.
Proof.
  induction tr as [|[out|] tr IH]; cbn; [reflexivity|exact IH|].
  by rewrite IH.
Qed.



(** What a fetch adds to the trace. *)
Lemma fetch_trace
      (Params : Type) (json_Marshal : Params -> string + error)
      (NewRequest_check : string -> string -> option error)
      (method uri : string) (params : option Params) (authType : Z)
      (st : State) :
  let a := self st in
  let stored := deref (headers a)
                      (mkWorld (heap (world st) ++ [∅]) (trace (world st))) in
  trace (world (snd (makeRequestWithAuthType Params json_Marshal NewRequest_check
                                             method uri params authType st)))
  = trace (world st)
    ++ match marshalled Params json_Marshal params with
       | Ok reqBody =>
           match NewRequest_check method (BaseURL a +:+ uri), httpClient a with
           | None, Some do =>
               let out := outbound_of a authType stored method uri reqBody in
               match do out with
               | inl _ => [EvDo out; EvClose]
               | inr _ => [EvDo out]
               end
           | _, _ => []
           end
       | _ => []
       end.
Proof.
  cbn zeta. rewrite ClientFacts.makeRequestWithAuthType_runs.
  destruct (marshalled _ _ _) as [reqBody|e|msg]; cbn [snd];
    rewrite ?app_nil_r; try reflexivity.
  rewrite ClientFacts.request_runs.
  destruct (NewRequest_check _ _); cbn [snd]; rewrite ?app_nil_r; try reflexivity.
  destruct (httpClient (self st)) as [do|]; cbn [snd world trace];
    rewrite ?app_nil_r; try reflexivity.
  unfold outbound_of.
  destruct (do _); cbn [snd world trace]; [|reflexivity].
  by rewrite <- app_assoc.
Qed.


Lemma sent_between_of_trace (st st' : State) (evs : list event) :
  trace (world st') = trace (world st) ++ evs -> sent_between st st' = sent evs.
Proof. unfold sent_between. intros ->. by rewrite drop_app_length. Qed.

Lemma closes_between_of_trace (st st' : State) (evs : list event) :
  trace (world st') = trace (world st) ++ evs -> closes_between st st' = closes evs.
Proof. unfold closes_between. intros ->. by rewrite drop_app_length. Qed.


(** ** One request, one close *)



Lemma sent_request_line
        (Params : Type) (json_Marshal : Params -> string + error)
        (NewRequest_check : string -> string -> option error)
        (method uri : string) (params : option Params) (authType : Z)
        (st : State) (out : Outbound) :
  out ∈ sent_between st (snd (makeRequestWithAuthType
                                Params json_Marshal NewRequest_check
                                method uri params authType st)) ->
  marshalled Params json_Marshal params = Ok (out_body out)
  /\ out_url out = BaseURL (self st) +:+ uri
  /\ out_method out = (if String.eqb method "" then "GET" else method).
Proof.
  rewrite (sent_between_of_trace _ _ _
             (fetch_trace Params json_Marshal NewRequest_check
                          method uri params authType st)).
  destruct (marshalled _ _ _) as [reqBody|e|msg];
    try (cbn; by intros ?%elem_of_nil).
  destruct (NewRequest_check _ _); try (cbn; by intros ?%elem_of_nil).
  destruct (httpClient (self st)) as [do|]; try (cbn; by intros ?%elem_of_nil).
  cbn zeta. destruct (do _); cbn [sent];
    intros ->%list_elem_of_singleton; done.
Qed.

(** Every request a fetch sends goes to the base URL of the client followed
    by the given path, with the given method (GET when the method is empty)
    and with the marshalled parameters as its body (no body when there are
    no parameters). *)
Theorem fetch_request_line
        (Params : Type) (json_Marshal : Params -> string + error)
        (NewRequest_check : string -> string -> option error)
        (method uri : string) (params : option Params) (authType : Z)
        (st : State) (out : Outbound) :
  out ∈ sent_between st (snd (makeRequestWithAuthType
                                Params json_Marshal NewRequest_check
                                method uri params authType st)) ->
  marshalled Params json_Marshal params = Ok (out_body out)
  /\ out_url out = BaseURL (self st) +:+ uri
  /\ out_method out = (if String.eqb method "" then "GET" else method).
Proof.
  rewrite (sent_between_of_trace _ _ _
             (fetch_trace Params json_Marshal NewRequest_check
                          method uri params authType st)).
  destruct (marshalled _ _ _) as [reqBody|e|msg];
    try (cbn; by intros ?%elem_of_nil).
  destruct (NewRequest_check _ _); try (cbn; by intros ?%elem_of_nil).
  destruct (httpClient (self st)) as [do|]; try (cbn; by intros ?%elem_of_nil).
  cbn zeta. destruct (do _); cbn [sent];
    intros ->%list_elem_of_singleton; done.
Qed.

Lemma fetch_request_line_witness :
  out_url (outbound_of (self (sample_client (fixed_server 200 "[]") AuthKeyEmail))
                       AuthKeyEmail ∅ "" "/zones" (Some "{}"))
  = "https://api.cloudflare.com/client/v4/zones"
  /\ out_method (outbound_of (self (sample_client (fixed_server 200 "[]") AuthKeyEmail))
                             AuthKeyEmail ∅ "" "/zones" (Some "{}"))
     = "GET".
Proof.
  refine (proj2 (fetch_request_line string marshal_text accept_all
                   "" "/zones" (Some "{}") AuthKeyEmail
                   (sample_client (fixed_server 200 "[]") AuthKeyEmail)
                   _ _)).
  vm_compute. apply list_elem_of_here.
Defined.

Lemma closes_of_fetch
        (Params : Type) (json_Marshal : Params -> string + error)
        (NewRequest_check : string -> string -> option error)
        (method uri : string) (params : option Params) (authType : Z)
        (st : State) :
  closes_between st (snd (makeRequestWithAuthType
                            Params json_Marshal NewRequest_check
                            method uri params authType st))
  = match marshalled Params json_Marshal params with
    | Ok reqBody =>
        match fst (request NewRequest_check method uri reqBody authType st) with
        | Ok _ => 1%nat
        | _ => 0%nat
        end
    | _ => 0%nat
    end.
Proof.
  rewrite (closes_between_of_trace _ _ _
             (fetch_trace Params json_Marshal NewRequest_check
                          method uri params authType st)).
  destruct (marshalled _ _ _) as [reqBody|e|msg]; try reflexivity.
  rewrite ClientFacts.request_runs.
  destruct (NewRequest_check _ _); [reflexivity|].
  destruct (httpClient (self st)) as [do|]; [|reflexivity].
  cbn zeta. unfold outbound_of. destruct (do _); reflexivity.
Qed.

(** The body of a response is closed exactly once when the round trip
    delivered a response, whatever its status and whether or not it could be
    read, and is not closed when there was no response. *)
Theorem fetch_closes_body_once
        (Params : Type) (json_Marshal : Params -> string + error)
        (NewRequest_check : string -> string -> option error)
        (method uri : string) (params : option Params) (authType : Z)
        (st : State) :
  closes_between st (snd (makeRequestWithAuthType
                            Params json_Marshal NewRequest_check
                            method uri params authType st))
  = match marshalled Params json_Marshal params with
    | Ok reqBody =>
        match fst (request NewRequest_check method uri reqBody authType st) with
        | Ok _ => 1%nat
        | _ => 0%nat
        end
    | _ => 0%nat
    end.
Proof.
  rewrite (closes_between_of_trace _ _ _
             (fetch_trace Params json_Marshal NewRequest_check
                          method uri params authType st)).
  destruct (marshalled _ _ _) as [reqBody|e|msg]; try reflexivity.
  rewrite ClientFacts.request_runs.
  destruct (NewRequest_check _ _); [reflexivity|].
  destruct (httpClient (self st)) as [do|]; [|reflexivity].
  cbn zeta. unfold outbound_of. destruct (do _); reflexivity.
Qed.

(** ** The ways a fetch fails before there is a status *)

(** When the parameters cannot be marshalled the fetch returns the error of
    the marshaller, wrapped, and does nothing else: no request is built or
    sent, and the state is the one before the call. *)
Theorem marshal_failure_sends_nothing
        (Params : Type) (json_Marshal : Params -> string + error)
        (NewRequest_check : string -> string -> option error)
        (method uri : string) (p : Params) (err : error) (authType : Z)
        (st : State) :
  json_Marshal p = inr err ->
  makeRequestWithAuthType Params json_Marshal NewRequest_check
                          method uri (Some p) authType st
  = (Err (Wrap err "error marshalling params to JSON"), st).
Proof.
  intros Hm. rewrite ClientFacts.makeRequestWithAuthType_runs.
  unfold marshalled. by rewrite Hm.
Qed.

Lemma marshal_failure_sends_nothing_witness :
  makeRequestWithAuthType string marshal_refuses accept_all
                          "POST" "/zones" (Some "zone") AuthKeyEmail
                          (sample_client (fixed_server 200 "[]") AuthKeyEmail)
  = (Err (Wrap (External "json: unsupported type")
               "error marshalling params to JSON"),
     sample_client (fixed_server 200 "[]") AuthKeyEmail).
Proof.
  exact (marshal_failure_sends_nothing string marshal_refuses accept_all
           "POST" "/zones" "zone" (External "json: unsupported type")
           AuthKeyEmail (sample_client (fixed_server 200 "[]") AuthKeyEmail)
           eq_refl).
Defined.

(** When [http.NewRequest] refuses the method or the URL the fetch returns
    its error wrapped as "HTTP request creation failed"; nothing is sent and
    the state is the one before the call. *)
Theorem bad_request_sends_nothing
        (Params : Type) (json_Marshal : Params -> string + error)
        (NewRequest_check : string -> string -> option error)
        (method uri : string) (params : option Params) (authType : Z)
        (st : State) (reqBody : option string) (e : error) :
  marshalled Params json_Marshal params = Ok reqBody ->
  NewRequest_check method (BaseURL (self st) +:+ uri) = Some e ->
  makeRequestWithAuthType Params json_Marshal NewRequest_check
                          method uri params authType st
  = (Err (Wrap e "HTTP request creation failed"), st).
Proof.
  intros Hm Hc. rewrite ClientFacts.makeRequestWithAuthType_runs, Hm.
  rewrite ClientFacts.request_runs. cbn zeta. by rewrite Hc.
Qed.

Lemma bad_request_sends_nothing_witness :
  makeRequestWithAuthType string marshal_text reject_all
                          "GE T" "/zones" None AuthKeyEmail
                          (sample_client (fixed_server 200 "[]") AuthKeyEmail)
  = (Err (Wrap (External "net/http: invalid method") "HTTP request creation failed"),
     sample_client (fixed_server 200 "[]") AuthKeyEmail).
Proof.
  exact (bad_request_sends_nothing string marshal_text reject_all
           "GE T" "/zones" None AuthKeyEmail
           (sample_client (fixed_server 200 "[]") AuthKeyEmail)
           None (External "net/http: invalid method") eq_refl eq_refl).
Defined.



(** When the body of the response cannot be read the fetch returns the
    read error wrapped as "could not read response body", whatever the
    status of the response, 200 included; the body is closed all the same. *)
Theorem unreadable_body
        (Params : Type) (json_Marshal : Params -> string + error)
        (NewRequest_check : string -> string -> option error)
        (method uri : string) (params : option Params) (authType : Z)
        (st st1 : State) (reqBody : option string) (resp : http.Response)
        (e : error) :
  marshalled Params json_Marshal params = Ok reqBody ->
  request NewRequest_check method uri reqBody authType st = (Ok resp, st1) ->
  read_error (RespBody resp) = Some e ->
  let r := makeRequestWithAuthType Params json_Marshal NewRequest_check
                                   method uri params authType st in
  fst r = Err (Wrap e "could not read response body")
  /\ closes_between st (snd r) = 1%nat.
Proof.
  intros Hm Hr Hb r. unfold r. split.
  - by rewrite ClientFacts.makeRequestWithAuthType_runs, Hm, Hr, Hb.
  - by rewrite closes_of_fetch, Hm, Hr.
Qed.

Lemma unreadable_body_witness :
  fst (sample_fetch (broken_body_server 200) AuthKeyEmail)
  = Err (Wrap (External "unexpected EOF") "could not read response body")
  /\ closes_between (sample_client (broken_body_server 200) AuthKeyEmail)
                    (snd (sample_fetch (broken_body_server 200) AuthKeyEmail))
     = 1%nat.
Proof.
  eapply (unreadable_body string marshal_text accept_all
            "GET" "/zones" None AuthKeyEmail
            (sample_client (broken_body_server 200) AuthKeyEmail)
            _ None (mkResponse 200 (mkBody "" (Some (External "unexpected EOF"))))).
  - reflexivity.
  - vm_compute. reflexivity.
  - reflexivity.
Defined.

(** A fetch that returns a body without error has had a response with
    status 200 whose body could be read, and returns that body, whole. *)
Theorem successful_fetch_means_200
        (Params : Type) (json_Marshal : Params -> string + error)
        (NewRequest_check : string -> string -> option error)
        (method uri : string) (params : option Params) (authType : Z)
        (st : State) (body : string) :
  fst (makeRequestWithAuthType Params json_Marshal NewRequest_check
                               method uri params authType st) = Ok body ->
  exists (reqBody : option string) (resp : http.Response) (st1 : State),
    marshalled Params json_Marshal params = Ok reqBody
    /\ request NewRequest_check method uri reqBody authType st = (Ok resp, st1)
    /\ StatusCode resp = 200
    /\ read_error (RespBody resp) = None
    /\ content (RespBody resp) = body.
Proof.
  rewrite ClientFacts.makeRequestWithAuthType_runs.
  destruct (marshalled _ _ _) as [reqBody|e|msg]; try discriminate.
  destruct (request _ _ _ _ _ _) as [[resp|e|msg] st1] eqn:Hr; try discriminate.
  cbn [fst]. destruct (read_error (RespBody resp)) eqn:Hb; [discriminate|].
  intros Hs.
  assert (H200 : StatusCode resp = 200).
  { destruct (decide (StatusCode resp = 200)) as [H|Hne]; [exact H|].
    pose proof (ClientFacts.status_switch_not_200 _ (content (RespBody resp)) Hne) as He.
    rewrite Hs in He. destruct He. }
  exists reqBody, resp, st1. repeat split; try done.
  rewrite H200, ClientFacts.status_switch_200 in Hs. by injection Hs.
Qed.

Lemma successful_fetch_means_200_witness :
  exists (reqBody : option string) (resp : http.Response) (st1 : State),
    marshalled string marshal_text None = Ok reqBody
    /\ request accept_all "GET" "/zones" reqBody AuthKeyEmail
               (sample_client (fixed_server 200 "[]") AuthKeyEmail) = (Ok resp, st1)
    /\ StatusCode resp = 200
    /\ read_error (RespBody resp) = None
    /\ content (RespBody resp) = "[]".
Proof.
  apply (successful_fetch_means_200 string marshal_text accept_all
           "GET" "/zones" None AuthKeyEmail
           (sample_client (fixed_server 200 "[]") AuthKeyEmail) "[]").
  vm_compute. reflexivity.
Defined.

(** ** The headers of a request *)

Lemma with_auth_other (a : API) (t : Z) (stored : Header) (k : string) :
  k <> "Authorization" -> k <> "X-Auth-Key" -> k <> "X-Auth-Email" ->
  k <> "X-Auth-User-Service-Key" ->
  with_auth a t stored !! k = stored !! k.
Proof.
  intros H1 H2 H3 H4. unfold with_auth.
  destruct (negb (Z.land t AuthApiToken =? 0)%Z),
           (negb (Z.land t AuthKeyEmail =? 0)%Z),
           (negb (Z.land t AuthUserService =? 0)%Z);
    by rewrite ?lookup_insert_ne by done.
Qed.

Lemma with_auth_Content_Type (a : API) (t : Z) (stored : Header) :
  Header_first (with_auth a t stored) "Content-Type"
  = Header_first stored "Content-Type".
Proof. unfold Header_first. by rewrite with_auth_other. Qed.

(** Every request a fetch sends has a content type: the one of the stored
    headers when they have one that is not empty, and [application/json]
    otherwise. *)
Theorem fetch_content_type
        (Params : Type) (json_Marshal : Params -> string + error)
        (NewRequest_check : string -> string -> option error)
        (method uri : string) (params : option Params) (authType : Z)
        (st : State) (out : Outbound) :
  allocated (headers (self st)) (world st) ->
  out ∈ sent_between st (snd (makeRequestWithAuthType
                                Params json_Marshal NewRequest_check
                                method uri params authType st)) ->
  let stored := deref (headers (self st)) (world st) in
  Header_first (out_header out) "Content-Type" <> ""
  /\ (Header_first stored "Content-Type" <> "" ->
      out_header out !! "Content-Type" = stored !! "Content-Type")
  /\ (Header_first stored "Content-Type" = "" ->
      out_header out !! "Content-Type" = Some ["application/json"]).
Proof.
  intros Ha Hin stored.
  rewrite (ClientFacts.fetch_sends _ _ _ _ _ _ _ _ _ Ha Hin). fold stored.
  unfold outgoing_header. rewrite with_auth_Content_Type.
  destruct (String.eqb_spec (Header_first stored "Content-Type") "") as [He|Hne].
  - split; [|split].
    + unfold Header_first. by rewrite lookup_insert_eq.
    + intros Hc. by destruct Hc.
    + intros _. by rewrite lookup_insert_eq.
  - split; [|split].
    + by rewrite with_auth_Content_Type.
    + intros _. by apply with_auth_other.
    + intros Hc. by destruct Hne.
Qed.

Lemma fetch_content_type_witness :
  out_header (outbound_of (self (custom_client (fixed_server 200 "[]") AuthKeyEmail))
                          AuthKeyEmail
                          (<["Content-Type" := ["text/plain"]]> (<["X-Trace" := ["on"]]> ∅))
                          "GET" "/zones" None)
  !! "Content-Type" = Some ["text/plain"].
Proof.
  refine (proj1 (proj2 (fetch_content_type string marshal_text accept_all
                          "GET" "/zones" None AuthKeyEmail
                          (custom_client (fixed_server 200 "[]") AuthKeyEmail)
                          (outbound_of
                             (self (custom_client (fixed_server 200 "[]") AuthKeyEmail))
                             AuthKeyEmail
                             (<["Content-Type" := ["text/plain"]]>
                                (<["X-Trace" := ["on"]]> ∅))
                             "GET" "/zones" None)
                          _ _)) _).
  - cbn. lia.
  - vm_compute. apply list_elem_of_here.
  - vm_compute. discriminate.
Defined.

(** The stored headers go out as they are: on every request a fetch sends,
    a header other than the four credential headers and the content type has
    the values the stored header map has for it, and is absent when the
    stored map has none. *)
Theorem fetch_keeps_user_headers
        (Params : Type) (json_Marshal : Params -> string + error)
        (NewRequest_check : string -> string -> option error)
        (method uri : string) (params : option Params) (authType : Z)
        (st : State) (out : Outbound) (k : string) :
  allocated (headers (self st)) (world st) ->
  out ∈ sent_between st (snd (makeRequestWithAuthType
                                Params json_Marshal NewRequest_check
                                method uri params authType st)) ->
  k ∉ client_headers ->
  out_header out !! k = deref (headers (self st)) (world st) !! k.
Proof.
  intros Ha Hin Hk.
  rewrite (ClientFacts.fetch_sends _ _ _ _ _ _ _ _ _ Ha Hin).
  unfold client_headers in Hk.
  rewrite ClientFacts.outgoing_header_lookup by (intros ->; apply Hk; set_solver).
  apply with_auth_other; intros ->; apply Hk; set_solver.
Qed.

Lemma fetch_keeps_user_headers_witness :
  out_header (outbound_of (self (custom_client (fixed_server 200 "[]") AuthKeyEmail))
                          AuthKeyEmail
                          (<["Content-Type" := ["text/plain"]]> (<["X-Trace" := ["on"]]> ∅))
                          "GET" "/zones" None)
  !! "X-Trace" = Some ["on"].
Proof.
  refine (fetch_keeps_user_headers string marshal_text accept_all
            "GET" "/zones" None AuthKeyEmail
            (custom_client (fixed_server 200 "[]") AuthKeyEmail)
            (outbound_of
               (self (custom_client (fixed_server 200 "[]") AuthKeyEmail))
               AuthKeyEmail
               (<["Content-Type" := ["text/plain"]]> (<["X-Trace" := ["on"]]> ∅))
               "GET" "/zones" None)
            "X-Trace" _ _ _).
  - cbn. lia.
  - vm_compute. apply list_elem_of_here.
  - compute_done.
Defined.

(** ** [cloneHeader] *)

(** [cloneHeader] followed by [Set] on the copy: the copy is a new map that
    has the entries of the original and the new value at the key, and the
    original, like every map that was there before, is as it was. *)
Theorem cloneHeader_shallow_copy (h : href) (k v : string) (st : State) :
  allocated h (world st) ->
  let run := (c <- cloneHeader h ;; Header_Set c k v ;;; ret c) st in
  let copy := Some (length (heap (world st))) in
  fst run = Ok copy
  /\ deref copy (world (snd run)) = <[k := [v]]> (deref h (world st))
  /\ deref h (world (snd run)) = deref h (world st)
  /\ (forall (l : nat) (m : Header),
         heap (world st) !! l = Some m -> heap (world (snd run)) !! l = Some m)
  /\ self (snd run) = self st.
Proof.
  intros Ha. destruct st as [a [hp tr]]. cbn zeta.
  unfold bind, cloneHeader, alloc, alloc_in. cbn [self world heap trace].
  rewrite ClientFacts.cloneHeader_copies, ClientFacts.Header_Set_last.
  cbn [fst snd self world heap trace ret].
  repeat split.
  - apply ClientFacts.deref_last.
  - by apply ClientFacts.deref_grows.
  - intros l m Hl. by apply lookup_app_l_Some.
Qed.

Lemma cloneHeader_shallow_copy_witness :
  deref (Some 0%nat)
        (world (snd ((c <- cloneHeader (Some 0%nat) ;;
                      Header_Set c "X-Trace" "off" ;;; ret c)
                       (custom_client no_route AuthKeyEmail))))
  = deref (Some 0%nat) (world (custom_client no_route AuthKeyEmail)).
Proof.
  refine (proj1 (proj2 (proj2 (cloneHeader_shallow_copy
                                 (Some 0%nat) "X-Trace" "off"
                                 (custom_client no_route AuthKeyEmail) _)))).
  cbn. lia.
Defined.

(** ** [SetAuthType] *)

Lemma fetch_ignores_stored_type
      (Params : Type) (json_Marshal : Params -> string + error)
      (NewRequest_check : string -> string -> option error)
      (method uri : string) (params : option Params) (t t' : Z)
      (a : API) (w : World) :
  let changed := makeRequestWithAuthType Params json_Marshal NewRequest_check
                   method uri params t' (mkState (with_authType t a) w) in
  let plain := makeRequestWithAuthType Params json_Marshal NewRequest_check
                 method uri params t' (mkState a w) in
  fst changed = fst plain
  /\ world (snd changed) = world (snd plain)
  /\ self (snd changed) = with_authType t a.
Proof.
  cbn zeta. rewrite !ClientFacts.makeRequestWithAuthType_runs.
  destruct (marshalled _ _ _) as [reqBody|e|msg]; try done.
  rewrite !ClientFacts.request_runs. cbn [self world heap trace].
  change (BaseURL (with_authType t a)) with (BaseURL a).
  change (headers (with_authType t a)) with (headers a).
  change (httpClient (with_authType t a)) with (httpClient a).
  change (outgoing_header (with_authType t a)) with (outgoing_header a).
  destruct (NewRequest_check _ _); [done|].
  destruct (httpClient a) as [do|]; [|done].
  destruct (do _); done.
Qed.

(** After [SetAuthType(t)] the client authenticates with [t]: [makeRequest]
    then returns what [makeRequestWithAuthType] with [t] returns, with the
    same effect on the world, and of the fields of the client only the
    authentication type has changed. *)
Theorem SetAuthType_then_makeRequest
        (Params : Type) (json_Marshal : Params -> string + error)
        (NewRequest_check : string -> string -> option error)
        (method uri : string) (params : option Params) (t : Z) (st : State) :
  let run := (SetAuthType t ;;;
              makeRequest Params json_Marshal NewRequest_check method uri params) st in
  let direct := makeRequestWithAuthType Params json_Marshal NewRequest_check
                  method uri params t st in
  fst run = fst direct
  /\ world (snd run) = world (snd direct)
  /\ self (snd run) = with_authType t (self st).
Proof.
  destruct st as [a w]. cbn zeta. unfold bind, SetAuthType.
  cbn [self world]. rewrite ClientFacts.makeRequest_unfold. cbn [self].
  change (authType (with_authType t a)) with t.
  pose proof (fetch_ignores_stored_type Params json_Marshal NewRequest_check
                method uri params t t a w) as H.
  cbn zeta in H.
  destruct (makeRequestWithAuthType _ _ _ _ _ _ _ (mkState (with_authType t a) w))
    as [r st'].
  exact H.
Qed.

(** ** The errors of [ZoneIDByName] *)

Lemma first_zone_named_absent (zoneName : string) (res : list Zone) (e : error) :
  first_zone_named zoneName res = Err e ->
  e = errors.New "Zone could not be found"
  /\ forall z : Zone, z ∈ res -> Name z <> zoneName.
Proof.
  induction res as [|z0 rest IH]; cbn [first_zone_named].
  - intros [= <-]. split; [reflexivity|]. by intros z ?%elem_of_nil.
  - destruct (String.eqb_spec (Name z0) zoneName) as [|Hne]; [discriminate|].
    intros [He Hrest]%IH. split; [exact He|].
    intros z [->|Hz]%elem_of_cons; [exact Hne|by apply Hrest].
Qed.

(** The two errors of [ZoneIDByName] tell the two failures apart.  When the
    zone listing cannot be fetched, the error of [ListZones] comes back
    wrapped as "ListZones command failed".  The error
    "Zone could not be found" comes back only when the listing was fetched
    and no zone of it has the requested name. *)
Theorem ZoneIDByName_errors
        (ListZones : string -> M (list Zone)) (zoneName : string) (st : State) :
  (forall (e : error) (st1 : State),
      ListZones zoneName st = (Err e, st1) ->
      ZoneIDByName ListZones zoneName st
      = (Err (Wrap e "ListZones command failed"), st1))
  /\ (fst (ZoneIDByName ListZones zoneName st)
      = Err (errors.New "Zone could not be found") ->
      exists (res : list Zone) (st1 : State),
        ListZones zoneName st = (Ok res, st1)
        /\ forall z : Zone, z ∈ res -> Name z <> zoneName).
Proof.
  unfold ZoneIDByName, bind, wrapping. split.
  - intros e st1 HL. by rewrite HL.
  - destruct (ListZones zoneName st) as [[res|e|msg] st1]; cbn [fst];
      try discriminate.
    intros [_ Habsent]%first_zone_named_absent. by exists res, st1.
Qed.

Lemma ZoneIDByName_errors_witness :
  ZoneIDByName ListZones_fails "example.com" (sample_client no_route AuthKeyEmail)
  = (Err (Wrap (External "HTTP request failed") "ListZones command failed"),
     sample_client no_route AuthKeyEmail)
  /\ exists (res : list Zone) (st1 : State),
      ret sample_zones (sample_client no_route AuthKeyEmail) = (Ok res, st1)
      /\ forall z : Zone, z ∈ res -> Name z <> "example.org".
Proof.
  split.
  - exact (proj1 (ZoneIDByName_errors ListZones_fails "example.com"
                    (sample_client no_route AuthKeyEmail)) _ _ eq_refl).
  - exact (proj2 (ZoneIDByName_errors (fun _ => ret sample_zones) "example.org"
                    (sample_client no_route AuthKeyEmail)) eq_refl).
Defined.

Lemma first_zone_named_sound (zoneName : string) (res : list Zone) (id : string) :
  first_zone_named zoneName res = Ok id ->
  exists zone : Zone, zone ∈ res /\ Name zone = zoneName /\ ID zone = id.
Proof.
  induction res as [|z0 rest IH]; cbn [first_zone_named]; [discriminate|].
  destruct (String.eqb_spec (Name z0) zoneName) as [Heq|_].
  - intros [= <-]. exists z0. split; [apply list_elem_of_here|done].
  - intros [zone (Hin & Hn & Hi)]%IH. exists zone.
    split; [by apply list_elem_of_further|done].
Qed.

(** [ZoneIDByName] returns no ID of its own making: an ID it returns is the
    ID of a zone of the listing whose name is the requested one. *)
Theorem ZoneIDByName_sound
        (ListZones : string -> M (list Zone)) (zoneName : string)
        (st st' : State) (id : string) :
  ZoneIDByName ListZones zoneName st = (Ok id, st') ->
  exists (res : list Zone) (zone : Zone),
    ListZones zoneName st = (Ok res, st')
    /\ zone ∈ res /\ Name zone = zoneName /\ ID zone = id.
Proof.
  unfold ZoneIDByName, bind, wrapping.
  destruct (ListZones zoneName st) as [[res|e|msg] st1]; try discriminate.
  intros [= Hf <-].
  destruct (first_zone_named_sound zoneName res id Hf) as [zone Hz].
  by exists res, zone.
Qed.

Lemma ZoneIDByName_sound_witness :
  exists (res : list Zone) (zone : Zone),
    ret sample_zones (sample_client no_route AuthKeyEmail)
    = (Ok res, sample_client no_route AuthKeyEmail)
    /\ zone ∈ res /\ Name zone = "example.com" /\ ID zone = "id-2".
Proof.
  exact (ZoneIDByName_sound (fun _ => ret sample_zones) "example.com"
           (sample_client no_route AuthKeyEmail)
           (sample_client no_route AuthKeyEmail) "id-2" eq_refl).
Defined.

(** ** [Raw] *)

Lemma Raw_runs
      (Params : Type) (json_Marshal : Params -> string + error)
      (NewRequest_check : string -> string -> option error)
      (json_Unmarshal : string -> RawResponse + error)
      (errMakeRequestError errUnmarshalError : string)
      (method endpoint : string) (data : option Params) (st : State) :
  Raw Params json_Marshal NewRequest_check json_Unmarshal
      errMakeRequestError errUnmarshalError method endpoint data st
  = (match fst (makeRequest Params json_Marshal NewRequest_check
                            method endpoint data st) with
     | Ok res =>
         match json_Unmarshal res with
         | inl r => Ok (Result r)
         | inr err => Err (Wrap err errUnmarshalError)
         end
     | Err e => Err (Wrap e errMakeRequestError)
     | Panic msg => Panic msg
     end,
     snd (makeRequest Params json_Marshal NewRequest_check method endpoint data st)).
Proof.
  unfold Raw, bind, wrapping.
  destruct (makeRequest _ _ _ _ _ _ _) as [[res|e|msg] st1]; try reflexivity.
  cbn [fst snd]. destruct (json_Unmarshal res); reflexivity.
Qed.

(** When the server answers 200 with a body that decodes as a raw response,
    [Raw] returns the bytes of its [result] field; it does not look at the
    [success] flag or at the errors the response reports. *)
Theorem Raw_result_ignores_success_flag
        (Params : Type) (json_Marshal : Params -> string + error)
        (NewRequest_check : string -> string -> option error)
        (json_Unmarshal : string -> RawResponse + error)
        (errMakeRequestError errUnmarshalError : string)
        (method endpoint : string) (data : option Params)
        (st st1 : State) (reqBody : option string) (resp : http.Response)
        (result : string) (envelope : Response) :
  marshalled Params json_Marshal data = Ok reqBody ->
  request NewRequest_check method endpoint reqBody (authType (self st)) st
  = (Ok resp, st1) ->
  read_error (RespBody resp) = None ->
  StatusCode resp = 200 ->
  json_Unmarshal (content (RespBody resp)) = inl (mkRawResponse envelope result) ->
  fst (Raw Params json_Marshal NewRequest_check json_Unmarshal
           errMakeRequestError errUnmarshalError method endpoint data st)
  = Ok result.
Proof.
  intros Hm Hr Hb H200 Hu. rewrite Raw_runs. cbn [fst].
  rewrite ClientFacts.makeRequest_unfold.
  rewrite (ClientFacts.fetch_result _ _ _ _ _ _ _ _ _ _ _ Hm Hr Hb).
  by rewrite H200, ClientFacts.status_switch_200, Hu.
Qed.

Lemma Raw_result_ignores_success_flag_witness :
  fst (Raw string marshal_text accept_all unmarshal_unsuccessful
           "make request" "unmarshal" "GET" "/zones" None
           (sample_client (fixed_server 200 "null") AuthKeyEmail))
  = Ok "null".
Proof.
  eapply (Raw_result_ignores_success_flag string marshal_text accept_all
            unmarshal_unsuccessful "make request" "unmarshal"
            "GET" "/zones" None
            (sample_client (fixed_server 200 "null") AuthKeyEmail)
            _ None (mkResponse 200 (mkBody "null" None))).
  - reflexivity.
  - vm_compute. reflexivity.
  - reflexivity.
  - reflexivity.
  - reflexivity.
Defined.



(** ** The client [New] returns *)

Lemma New_success
        (DefaultClient : Client) (errEmptyCredentials : string)
        (Option : Type) (parseOptions : list Option -> M unit)
        (token key email : string) (opts : list Option) (w w' : World)
        (api : API) :
  New DefaultClient errEmptyCredentials Option parseOptions
      token key email opts w = (Ok api, w') ->
  exists st : State,
    parseOptions opts
      (mkState (mkAPI token key email "" apiURL ""
                      (Some (length (heap w))) None AuthKeyEmail)
               (mkWorld (heap w ++ [∅]) (trace w)))
    = (Ok tt, st)
    /\ w' = world st
    /\ api = with_httpClient (Some (default DefaultClient (httpClient (self st))))
                             (self st)
    /\ is_Some (httpClient api).
Proof.
  unfold New, alloc_in.
  destruct (String.eqb token "" && (String.eqb key "" || String.eqb email ""));
    [discriminate|].
  destruct (parseOptions opts _) as [[[]|e|msg] st] eqn:Hp; try discriminate.
  intros [= <- <-]. exists st. split; [reflexivity|]. split; [reflexivity|].
  destruct (self st) as [? ? ? ? ? ? ? [c|] ?]; cbn; eauto.
Qed.

(** When [New] succeeds, the client it returns is the one the options left,
    with [http.DefaultClient] as its transport when the options set none: a
    client made by [New] always has a transport. *)
Theorem New_returns_configured_client
        (DefaultClient : Client) (errEmptyCredentials : string)
        (Option : Type) (parseOptions : list Option -> M unit)
        (token key email : string) (opts : list Option) (w w' : World)
        (api : API) :
  New DefaultClient errEmptyCredentials Option parseOptions
      token key email opts w = (Ok api, w') ->
  exists st : State,
    parseOptions opts
      (mkState (mkAPI token key email "" apiURL ""
                      (Some (length (heap w))) None AuthKeyEmail)
               (mkWorld (heap w ++ [∅]) (trace w)))
    = (Ok tt, st)
    /\ w' = world st
    /\ api = with_httpClient (Some (default DefaultClient (httpClient (self st))))
                             (self st)
    /\ is_Some (httpClient api).
Proof.
  unfold New, alloc_in.
  destruct (String.eqb token "" && (String.eqb key "" || String.eqb email ""));
    [discriminate|].
  destruct (parseOptions opts _) as [[[]|e|msg] st] eqn:Hp; try discriminate.
  intros [= <- <-]. exists st. split; [reflexivity|]. split; [reflexivity|].
  destruct (self st) as [? ? ? ? ? ? ? [c|] ?]; cbn; eauto.
Qed.

Lemma New_returns_configured_client_witness :
  exists st : State,
    apply_options []
      (mkState (mkAPI "tok" "key" "mail@example.com" "" apiURL ""
                      (Some (length (heap empty_world))) None AuthKeyEmail)
               (mkWorld (heap empty_world ++ [∅]) (trace empty_world)))
    = (Ok tt, st)
    /\ world (sample_client no_route AuthKeyEmail) = world st
    /\ self (sample_client no_route AuthKeyEmail)
       = with_httpClient (Some (default no_route (httpClient (self st)))) (self st)
    /\ is_Some (httpClient (self (sample_client no_route AuthKeyEmail))).
Proof.
  exact (New_returns_configured_client no_route "empty credentials" (M unit)
           apply_options "tok" "key" "mail@example.com" [] empty_world
           (world (sample_client no_route AuthKeyEmail))
           (self (sample_client no_route AuthKeyEmail)) eq_refl).
Defined.




(** A client made by [New] whose options leave it as it is (no option, for
    one) sends each of its requests to the API URL followed by the path, with
    exactly three headers: [X-Auth-Key] with the key, [X-Auth-Email] with the
    email, and the content type [application/json]. *)
Theorem New_then_fetch
        (DefaultClient : Client) (errEmptyCredentials : string)
        (Option : Type) (parseOptions : list Option -> M unit)
        (token key email : string) (opts : list Option) (w w' : World)
        (api : API)
        (Params : Type) (json_Marshal : Params -> string + error)
        (NewRequest_check : string -> string -> option error)
        (method uri : string) (params : option Params) (out : Outbound) :
  let st0 := mkState (mkAPI token key email "" apiURL ""
                            (Some (length (heap w))) None AuthKeyEmail)
                     (mkWorld (heap w ++ [∅]) (trace w)) in
  parseOptions opts st0 = (Ok tt, st0) ->
  New DefaultClient errEmptyCredentials Option parseOptions
      token key email opts w = (Ok api, w') ->
  out ∈ sent_between (mkState api w')
                     (snd (makeRequest Params json_Marshal NewRequest_check
                                       method uri params (mkState api w'))) ->
  out_url out = apiURL +:+ uri
  /\ out_header out
     = <["Content-Type" := ["application/json"]]>
         (<["X-Auth-Email" := [email]]> (<["X-Auth-Key" := [key]]> ∅)).
Proof.
  intros st0 Hp HN Hin.
  destruct (New_success _ _ _ _ _ _ _ _ _ _ _ HN)
    as (st & Hp' & -> & -> & _).
  fold st0 in Hp'. rewrite Hp in Hp'. injection Hp' as <-.
  rewrite ClientFacts.makeRequest_unfold in Hin.
  split.
  - by destruct (sent_request_line _ _ _ _ _ _ _ _ _ Hin) as (_ & -> & _).
  - rewrite (ClientFacts.fetch_sends _ _ _ _ _ _ _ _ _) with (2 := Hin).
    + cbn [self world st0 headers with_httpClient authType].
      rewrite ClientFacts.deref_last.
      unfold outgoing_header, with_auth. cbn [APIKey APIEmail].
      change (negb (Z.land AuthKeyEmail AuthApiToken =? 0)%Z) with false.
      change (negb (Z.land AuthKeyEmail AuthKeyEmail =? 0)%Z) with true.
      change (negb (Z.land AuthKeyEmail AuthUserService =? 0)%Z) with false.
      cbn iota. unfold Header_first.
      rewrite !lookup_insert_ne by done. rewrite lookup_empty.
      reflexivity.
    + cbn. rewrite length_app. cbn. lia.
Qed.

Lemma New_then_fetch_witness :
  out_header (outbound_of (self (sample_client (fixed_server 200 "[]") AuthKeyEmail))
                          AuthKeyEmail ∅ "GET" "/zones" None)
  = <["Content-Type" := ["application/json"]]>
      (<["X-Auth-Email" := ["mail@example.com"]]> (<["X-Auth-Key" := ["key"]]> ∅)).
Proof.
  refine (proj2 (New_then_fetch (fixed_server 200 "[]") "empty credentials" (M unit)
                   apply_options "tok" "key" "mail@example.com" [] empty_world
                   (world (sample_client (fixed_server 200 "[]") AuthKeyEmail))
                   (self (sample_client (fixed_server 200 "[]") AuthKeyEmail))
                   string marshal_text accept_all "GET" "/zones" None
                   (outbound_of
                      (self (sample_client (fixed_server 200 "[]") AuthKeyEmail))
                      AuthKeyEmail ∅ "GET" "/zones" None)
                   eq_refl eq_refl _)).
  vm_compute. apply list_elem_of_here.
Defined.

End ClientExtras.
